(** * Room coordination service (server.js): a shallow embedding

    The service keeps three process-wide maps ([rooms], [socketToClientMap],
    [socketToRoomMap]) and talks to its clients through socket.io.  Every
    handler of [io.on('connection', ...)] is embedded as a function from the
    state before the event to the state after it together with the list of
    [emit] calls it performed, in program order.

    Strings are modelled by [string]; [String.prototype.toLowerCase] is a
    variable of the development (only its being a function is used).
    Of socket.io the model keeps what the handlers rely on: [socket.rooms],
    [join], [leave], who receives [socket.emit], [io.to(r).emit] and
    [socket.to(r).emit], and that a socket has left all its rooms when its
    ['disconnect'] event fires.  [console.log] calls are not modelled. *)

From stdpp Require Import gmap strings list fin_maps.

(** ** JavaScript [Map] with string keys, in insertion order

    [room.users] is iterated ([forEach], [values()]), so the insertion order
    is observable; it is kept as an association list.  [set] on a key that is
    present keeps the position of the entry, [set] on a new key appends. *)
Module JsMap.
Section JsMap.
Context {V : Type}.

Fixpoint get (k : string) (m : list (string * V)) : option V :=
  match m with
  | [] => None
  | (k', v) :: m' => if decide (k' = k) then Some v else get k m'
  end.

Fixpoint set (k : string) (v : V) (m : list (string * V)) : list (string * V) :=
  match m with
  | [] => [(k, v)]
  | (k', v') :: m' =>
      if decide (k' = k) then (k, v) :: m' else (k', v') :: set k v m'
  end.

Fixpoint delete (k : string) (m : list (string * V)) : list (string * V) :=
  match m with
  | [] => []
  | (k', v') :: m' =>
      if decide (k' = k) then delete k m' else (k', v') :: delete k m'
  end.

Definition keys (m : list (string * V)) : list string := m.*1.
Definition values (m : list (string * V)) : list V := m.*2.
Definition size (m : list (string * V)) : nat := length m.
End JsMap.
End JsMap.

(** ** Array helpers used by the handlers *)

(** [self.findIndex(p)]: index of the first element satisfying [p]. *)
Fixpoint findIndex {A} (p : A → bool) (self : list A) : option nat :=
  match self with
  | [] => None
  | x :: rest => if p x then Some 0 else S <$> findIndex p rest
  end.

(** [self.filter((x, index, self) => f x index self)]. *)
Fixpoint filterFrom {A} (f : A → nat → list A → bool)
    (self : list A) (index : nat) (l : list A) : list A :=
  match l with
  | [] => []
  | x :: rest =>
      if f x index self then x :: filterFrom f self (S index) rest
      else filterFrom f self (S index) rest
  end.

Definition filterIndexed {A} (f : A → nat → list A → bool) (self : list A) : list A :=
  filterFrom f self 0 self.

(** [arr.indexOf(x)] on an array of strings. *)
Fixpoint indexOf (x : string) (arr : list string) : option nat :=
  match arr with
  | [] => None
  | y :: rest => if decide (y = x) then Some 0 else S <$> indexOf x rest
  end.

(** [arr.splice(i, 1)]: the array after the call. *)
Definition splice1 (i : nat) (arr : list string) : list string :=
  take i arr ++ drop (S i) arr.

(** ** Data model *)

(** The user objects stored in [room.users]. *)
Module User.
Record t := mk {
  id : string;
  username : string;
  peerId : option string;
  sockets : list string
}.
Definition setPeerId (p : string) (u : t) : t :=
  mk (id u) (username u) (Some p) (sockets u).
Definition setSockets (s : list string) (u : t) : t :=
  mk (id u) (username u) (peerId u) s.
End User.

(** The room objects stored in [rooms]. *)
Module Room.
Record t := mk {
  users : list (string * User.t);
  code : string
}.
Definition setUsers (us : list (string * User.t)) (r : t) : t := mk us (code r).
Definition setCode (c : string) (r : t) : t := mk (users r) c.
End Room.

(** The service state: the three maps of server.js, and socket.io's view of
    which rooms each connected socket is in ([socket.rooms], a [Set] in
    insertion order whose first element is the socket's own id). *)
Record State := mkState {
  rooms : gmap string Room.t;
  socketToClientMap : gmap string string;
  socketToRoomMap : gmap string string;
  socketRooms : gmap string (list string)
}.

Definition initial : State := mkState ∅ ∅ ∅ ∅.

(** Values a chat message object may carry in its fields. *)
Inductive JsVal :=
| JUndefined
| JNull
| JBool (b : bool)
| JNum (n : Z)
| JStr (s : string).

Definition truthy (v : JsVal) : bool :=
  match v with
  | JUndefined | JNull => false
  | JBool b => b
  | JNum n => negb (Z.eqb n 0)
  | JStr s => negb (String.eqb s EmptyString)
  end.

(** The [{id, username, peerId}] objects of a user list. *)
Record UserEntry := mkEntry {
  entryId : string;
  entryUsername : string;
  entryPeerId : option string
}.

Definition toEntry (u : User.t) : UserEntry :=
  mkEntry (User.id u) (User.username u) (User.peerId u).

(** Events sent to clients, by event name. *)
Inductive Payload :=
| ConnectionEstablished (id message : string)
| JoinRejected (reason message : string)
| CodeChange (code : string)
| UserList (members : list UserEntry)
| UserJoined (username : string)
| JoinedRoom (roomId : string) (userCount : nat) (message : string)
| UserLeft (username : string)
| ChatMessage (message : gmap string JsVal).

(** Who an [emit] is addressed to: [socket.emit], [io.to(room).emit] and
    [socket.to(room).emit]. *)
Inductive Target :=
| ToSocket (socketId : string)
| ToRoom (roomId : string)
| ToOthers (socketId : string) (roomId : string).

Record Emit := mkEmit { target : Target; payload : Payload }.

(** The sockets socket.io holds in room [roomId]. *)
Definition subscribers (adapter : gmap string (list string)) (roomId : string) : gset string :=
  dom (filter (λ kv, roomId ∈ kv.2) adapter).

(** Who receives an emit.  [socket.to(r)] is a broadcast to room [r] whose
    excepted rooms are [{socket.id}]: socket.io leaves out every socket it
    holds in the room named by the sender's id, that is the sender itself,
    which is in that room from its connection to its disconnect, and any
    socket that joined a room with that name. *)
Definition recipients (adapter : gmap string (list string)) (t : Target) : gset string :=
  match t with
  | ToSocket s => {[ s ]}
  | ToRoom r => subscribers adapter r
  | ToOthers s r => subscribers adapter r ∖ ({[ s ]} ∪ subscribers adapter s)
  end.

(** [socket.join(room)] and leaving every room but the socket's own. *)
Definition joinSet (roomId : string) (rs : list string) : list string :=
  if decide (roomId ∈ rs) then rs else rs ++ [roomId].

Definition leavePrevious (socketId : string) (rs : list string) : list string :=
  filter (λ room, room = socketId) rs.

Definition dq : string := String (Ascii.ascii_of_nat 34) EmptyString.

(** [toLowerCase] on strings of ASCII characters, used to run the service on
    concrete traces. *)
Definition lowerChar (c : Ascii.ascii) : Ascii.ascii :=
  let n := Ascii.nat_of_ascii c in
  if (65 <=? n)%nat && (n <=? 90)%nat then Ascii.ascii_of_nat (n + 32) else c.

Fixpoint asciiLower (s : string) : string :=
  match s with
  | EmptyString => EmptyString
  | String c rest => String (lowerChar c) (asciiLower rest)
  end.

(** The member list as the specification words it: one entry per key, the
    first member seen with that key, in the order the members were seen. *)
Fixpoint firstSeen {A K} `{EqDecision K} (key : A → K) (seen : list K) (l : list A)
    : list A :=
  match l with
  | [] => []
  | x :: rest =>
      if decide (key x ∈ seen) then firstSeen key seen rest
      else x :: firstSeen key (key x :: seen) rest
  end.

Section Service.
(** [String.prototype.toLowerCase]. *)
Variable toLowerCase : string → string.

Set Default Proof Using "Type".

(** *** Member lists *)

(** joinRoom: first occurrence of each lower-cased username. *)
Definition userListJoin (room : Room.t) : list UserEntry :=
  toEntry <$>
    filterIndexed (λ user index self,
      bool_decide (Some index =
        findIndex (λ u, bool_decide (toLowerCase (User.username u)
                                     = toLowerCase (User.username user))) self))
      (JsMap.values (Room.users room)).

(** disconnect: first occurrence of each username, compared exactly. *)
Definition userListDisconnect (room : Room.t) : list UserEntry :=
  toEntry <$>
    filterIndexed (λ user index self,
      bool_decide (Some index =
        findIndex (λ u, bool_decide (User.username u = User.username user)) self))
      (JsMap.values (Room.users room)).

(** peer-id and requestUserList: every member, no filter. *)
Definition userListAll (room : Room.t) : list UserEntry :=
  toEntry <$> JsMap.values (Room.users room).

(** [computeMemberList] of the specification: deduplicated by display
    name compared case-insensitively, first-seen order preserved. *)
Definition computeMemberList (room : Room.t) : list UserEntry :=
  toEntry <$>
    firstSeen (λ u, toLowerCase (User.username u)) [] (JsMap.values (Room.users room)).

(** *** connection *)

(** Truthiness of a handshake query parameter. *)
Definition isTruthy (o : option string) : bool :=
  match o with
  | Some s => negb (String.eqb s EmptyString)
  | None => false
  end.

Definition connect (st : State) (socketId : string)
    (clientId roomIdFromQuery : option string) : State * list Emit :=
  let clients :=
    if isTruthy clientId
    then <[socketId := default EmptyString clientId]> (socketToClientMap st)
    else socketToClientMap st in
  let registry :=
    if isTruthy clientId && isTruthy roomIdFromQuery
    then <[socketId := default EmptyString roomIdFromQuery]> (socketToRoomMap st)
    else socketToRoomMap st in
  (mkState (rooms st) clients registry (<[socketId := [socketId]]> (socketRooms st)),
   [mkEmit (ToSocket socketId)
      (ConnectionEstablished socketId "Connected to server")]).

(** *** joinRoom *)

(** The [forEach] that raises the [usernameTaken] flag. *)
Definition usernameTaken (users : list (string * User.t))
    (username socketId : string) : bool :=
  foldl (λ taken user,
           if bool_decide (toLowerCase (User.username user) = toLowerCase username)
              && negb (bool_decide (User.id user = socketId))
           then true else taken)
        false (JsMap.values users).

Definition rejectMessage (username : string) : string :=
  "Username " +:+ dq +:+ username +:+ dq
    +:+ " is already taken in this room. Please choose a different username.".

Definition joinedMessage (username roomId : string) : string :=
  "You (" +:+ username +:+ ") have joined room " +:+ roomId.

Definition newUser (socketId username : string) : User.t :=
  User.mk socketId username None [socketId].

Definition joinRoom (st : State) (socketId username roomId : string)
    : State * list Emit :=
  let left := alter (leavePrevious socketId) socketId (socketRooms st) in
  let taken :=
    match rooms st !! roomId with
    | Some room => usernameTaken (Room.users room) username socketId
    | None => false
    end in
  if taken then
    (mkState (rooms st) (socketToClientMap st) (socketToRoomMap st) left,
     [mkEmit (ToSocket socketId)
        (JoinRejected "username_taken" (rejectMessage username))])
  else
    let room0 := default (Room.mk [] EmptyString) (rooms st !! roomId) in
    let room :=
      Room.setUsers (JsMap.set socketId (newUser socketId username) (Room.users room0))
                    room0 in
    (mkState (<[roomId := room]> (rooms st))
             (socketToClientMap st)
             (<[socketId := roomId]> (socketToRoomMap st))
             (alter (joinSet roomId) socketId left),
     [mkEmit (ToSocket socketId) (CodeChange (Room.code room));
      mkEmit (ToRoom roomId) (UserList (userListJoin room));
      mkEmit (ToOthers socketId roomId) (UserJoined username);
      mkEmit (ToSocket socketId)
        (JoinedRoom roomId (JsMap.size (Room.users room))
                    (joinedMessage username roomId))]).

(** *** Room lookup shared by peer-id, code-change and chat-message *)

(** [socketToRoomMap.get(socket.id) || Array.from(socket.rooms)[1]] *)
Definition lookupRoomId (st : State) (socketId : string) : option string :=
  let second := default [] (socketRooms st !! socketId) !! 1%nat in
  match socketToRoomMap st !! socketId with
  | Some r => if decide (r = EmptyString) then second else Some r
  | None => second
  end.

(** [roomId && rooms.has(roomId)], then [rooms.get(roomId)]. *)
Definition guardRoom (st : State) (roomId : option string) : option (string * Room.t) :=
  match roomId with
  | Some r =>
      if decide (r = EmptyString) then None
      else match rooms st !! r with
           | Some room => Some (r, room)
           | None => None
           end
  | None => None
  end.

Definition setRooms (rs : gmap string Room.t) (st : State) : State :=
  mkState rs (socketToClientMap st) (socketToRoomMap st) (socketRooms st).

(** *** peer-id *)
Definition peerIdHandler (st : State) (socketId peerId : string) : State * list Emit :=
  match guardRoom st (lookupRoomId st socketId) with
  | Some (roomId, room) =>
      match JsMap.get socketId (Room.users room) with
      | Some user =>
          let room' :=
            Room.setUsers (JsMap.set socketId (User.setPeerId peerId user) (Room.users room))
                          room in
          (setRooms (<[roomId := room']> (rooms st)) st,
           [mkEmit (ToRoom roomId) (UserList (userListAll room'))])
      | None => (st, [])
      end
  | None => (st, [])
  end.

(** *** code-change *)
Definition codeChange (st : State) (socketId code : string) : State * list Emit :=
  match guardRoom st (lookupRoomId st socketId) with
  | Some (roomId, room) =>
      (setRooms (<[roomId := Room.setCode code room]> (rooms st)) st,
       [mkEmit (ToOthers socketId roomId) (CodeChange code)])
  | None => (st, [])
  end.

(** *** chat-message *)

(** [{...message, username, sender, timestamp: message.timestamp || now}];
    [now] is [new Date().toISOString()] at the time of the event. *)
Definition stamp (message : gmap string JsVal) (username socketId now : string)
    : gmap string JsVal :=
  let timestamp :=
    match message !! "timestamp" with
    | Some v => if truthy v then v else JStr now
    | None => JStr now
    end in
  <["timestamp" := timestamp]>
    (<["sender" := JStr socketId]> (<["username" := JStr username]> message)).

Definition chatMessage (st : State) (socketId : string)
    (message : gmap string JsVal) (now : string) : State * list Emit :=
  match guardRoom st (lookupRoomId st socketId) with
  | Some (roomId, room) =>
      match JsMap.get socketId (Room.users room) with
      | Some user =>
          (st, [mkEmit (ToOthers socketId roomId)
                  (ChatMessage (stamp message (User.username user) socketId now))])
      | None => (st, [])
      end
  | None => (st, [])
  end.

(** *** disconnect *)

(** The [room.users.forEach] of the disconnect handler.  It splices the
    disconnected id out of every [sockets] array that holds it, remembers
    the last such user in [userToRemove], and raises [removeCompletely]
    when one of these arrays becomes empty.  Returns the member map after
    the loop and the two locals. *)
Fixpoint scanSockets (socketId : string) (users : list (string * User.t))
    (userToRemove : option (User.t * string)) (removeCompletely : bool)
    : list (string * User.t) * option (User.t * string) * bool :=
  match users with
  | [] => ([], userToRemove, removeCompletely)
  | (id, user) :: rest =>
      match indexOf socketId (User.sockets user) with
      | Some socketIndex =>
          let user' := User.setSockets (splice1 socketIndex (User.sockets user)) user in
          let '(rest', found, flag) :=
            scanSockets socketId rest (Some (user', id))
              (if decide (length (User.sockets user') = 0%nat) then true
               else removeCompletely) in
          ((id, user') :: rest', found, flag)
      | None =>
          let '(rest', found, flag) :=
            scanSockets socketId rest userToRemove removeCompletely in
          ((id, user) :: rest', found, flag)
      end
  end.

(** The body of [if (roomId && rooms.has(roomId))] in the disconnect
    handler: the rooms map afterwards and the emits. *)
Definition cleanupRoom (st : State) (socketId roomId : string) (room : Room.t)
    : gmap string Room.t * list Emit :=
  let '(scanned, userToRemove, removeCompletely) :=
    scanSockets socketId (Room.users room) None false in
  match userToRemove with
  | Some (user, id) =>
      let users' := if removeCompletely then JsMap.delete id scanned else scanned in
      let room' := Room.setUsers users' room in
      let left :=
        if removeCompletely
        then [mkEmit (ToRoom roomId) (UserLeft (User.username user))]
        else [] in
      (if decide (JsMap.size users' = 0%nat) then delete roomId (rooms st)
       else <[roomId := room']> (rooms st),
       left ++ [mkEmit (ToRoom roomId) (UserList (userListDisconnect room'))])
  | None => (<[roomId := Room.setUsers scanned room]> (rooms st), [])
  end.

(** socket.io has already taken the socket out of all its rooms when the
    ['disconnect'] event fires. *)
Definition disconnect (st : State) (socketId : string) : State * list Emit :=
  let '(rooms', out) :=
    match guardRoom st (socketToRoomMap st !! socketId) with
    | Some (roomId, room) => cleanupRoom st socketId roomId room
    | None => (rooms st, [])
    end in
  (mkState rooms'
           (delete socketId (socketToClientMap st))
           (delete socketId (socketToRoomMap st))
           (delete socketId (socketRooms st)),
   out).

(** *** requestUserList *)
Definition requestUserList (st : State) (socketId roomId : string) : State * list Emit :=
  match guardRoom st (Some roomId) with
  | Some (_, room) =>
      (st, [mkEmit (ToSocket socketId) (UserList (userListAll room));
            mkEmit (ToRoom roomId) (UserList (userListAll room))])
  | None => (st, [mkEmit (ToSocket socketId) (UserList [])])
  end.

(** *** The event loop *)
Inductive Event :=
| Connect (socketId : string) (clientId roomIdFromQuery : option string)
| JoinRoom (socketId username roomId : string)
| PeerId (socketId peerId : string)
| CodeChangeEv (socketId code : string)
| ChatMessageEv (socketId : string) (message : gmap string JsVal) (now : string)
| Disconnect (socketId : string)
| RequestUserList (socketId roomId : string).

Definition handle (st : State) (ev : Event) : State * list Emit :=
  match ev with
  | Connect s c r => connect st s c r
  | JoinRoom s u r => joinRoom st s u r
  | PeerId s p => peerIdHandler st s p
  | CodeChangeEv s c => codeChange st s c
  | ChatMessageEv s m now => chatMessage st s m now
  | Disconnect s => disconnect st s
  | RequestUserList s r => requestUserList st s r
  end.

(** A new connection gets an id no live socket has; every other event
    comes from a live socket. *)
Definition enabled (st : State) (ev : Event) : Prop :=
  match ev with
  | Connect s _ _ => socketRooms st !! s = None
  | JoinRoom s _ _ | PeerId s _ | CodeChangeEv s _ | ChatMessageEv s _ _
  | Disconnect s | RequestUserList s _ => is_Some (socketRooms st !! s)
  end.

Definition run (st : State) (evs : list Event) : State :=
  foldl (λ s ev, (handle s ev).1) st evs.

Inductive reachable : State → Prop :=
| reachable_initial : reachable initial
| reachable_step st ev :
    reachable st → enabled st ev → reachable (handle st ev).1.

(** [enabled] as a test, for running concrete traces. *)
Definition enabledb (st : State) (ev : Event) : bool :=
  match ev with
  | Connect s _ _ =>
      match socketRooms st !! s with None => true | Some _ => false end
  | JoinRoom s _ _ | PeerId s _ | CodeChangeEv s _ | ChatMessageEv s _ _
  | Disconnect s | RequestUserList s _ =>
      match socketRooms st !! s with None => false | Some _ => true end
  end.

Fixpoint allEnabled (st : State) (evs : list Event) : bool :=
  match evs with
  | [] => true
  | ev :: rest => enabledb st ev && allEnabled (handle st ev).1 rest
  end.

(** *** Invariant of the member maps

    What holds of every room of a state the event loop can reach: the
    member map is not empty, it is a map (one entry per key), every record
    is the one joinRoom stored under its key, and no two members hold
    names that agree after [toLowerCase]. *)
Definition lowerName (u : User.t) : string := toLowerCase (User.username u).

Definition roomOk (room : Room.t) : Prop :=
  Room.users room ≠ []
  ∧ NoDup (JsMap.keys (Room.users room))
  ∧ (∀ k u, (k, u) ∈ Room.users room → User.id u = k ∧ User.sockets u = [k])
  ∧ NoDup (lowerName <$> JsMap.values (Room.users room)).

Definition stateOk (st : State) : Prop :=
  ∀ roomId room, rooms st !! roomId = Some room → roomOk room.

(** *** GET /check-username *)

(** The two responses of the endpoint: status 400 with an error text, or
    [{ available }]. *)
Inductive HttpResponse :=
| Status400 (error : string)
| Json (available : bool).

(** [username] and [roomId] are the query parameters, absent or a string.
    The names of the room are collected, lower-cased, in a [Set]. *)
Definition checkUsername (st : State) (username roomId : option string) : HttpResponse :=
  if negb (isTruthy username) || negb (isTruthy roomId)
  then Status400 "Username and roomId are required"
  else
    match rooms st !! default EmptyString roomId with
    | None => Json true
    | Some room =>
        let usernames : gset string :=
          foldl (λ names user, {[ toLowerCase (User.username user) ]} ∪ names)
                ∅ (JsMap.values (Room.users room)) in
        let isUsernameTaken :=
          bool_decide (toLowerCase (default EmptyString username) ∈ usernames) in
        Json (negb isUsernameTaken)
    end.

(** *** requestUserList as server-helper.js has it

    The variant filters by exact username (the same filter as the
    disconnect handler), emits to the room only, and does nothing for a
    room that does not exist. *)
Definition requestUserListHelper (st : State) (socketId roomId : string)
    : State * list Emit :=
  match guardRoom st (Some roomId) with
  | Some (_, room) =>
      (st, [mkEmit (ToRoom roomId) (UserList (userListDisconnect room))])
  | None => (st, [])
  end.

(** *** Invariant tying socket.io rooms, the registry and the member maps

    A live socket is in its own socket.io room only, or in that and in the
    room it last joined, to which it is then registered and of whose member
    map it is a key; the registries hold live sockets only. *)
Definition socketOk (st : State) (s : string) (rs : list string) : Prop :=
  rs = [s]
  ∨ ∃ r room, r ≠ s ∧ rs = [s; r]
              ∧ socketToRoomMap st !! s = Some r
              ∧ rooms st !! r = Some room
              ∧ s ∈ JsMap.keys (Room.users room).

Definition linkOk (st : State) : Prop :=
  (∀ s rs, socketRooms st !! s = Some rs → socketOk st s rs)
  ∧ (∀ s r, socketToRoomMap st !! s = Some r → is_Some (socketRooms st !! s))
  ∧ (∀ s c, socketToClientMap st !! s = Some c → is_Some (socketRooms st !! s)).

(** ** Properties *)

(** *** Generic facts about the containers *)

Lemma elem_of_subscribers (adapter : gmap string (list string)) roomId s :
  s ∈ subscribers adapter roomId ↔ ∃ rs, adapter !! s = Some rs ∧ roomId ∈ rs.
Proof.
  unfold subscribers. rewrite elem_of_dom. split.
  - intros [rs Hrs]. apply map_lookup_filter_Some in Hrs as [? ?]. eauto.
  - intros (rs & ? & ?). exists rs. by apply map_lookup_filter_Some.
Qed.

Lemma sender_not_in_others (adapter : gmap string (list string)) s roomId :
  s ∉ recipients adapter (ToOthers s roomId).
Proof.
  simpl. rewrite elem_of_difference, elem_of_union, elem_of_singleton.
  intros [_ Hnot]. apply Hnot. by left.
Qed.

(** The recipients of [socket.to(roomId)]: the sockets that are in the room
    and not in the room named by the sender's id. *)
Lemma others_in_recipients (adapter : gmap string (list string)) s roomId c :
  c ∈ recipients adapter (ToOthers s roomId)
  ↔ (c ≠ s ∧ ∃ rs, adapter !! c = Some rs ∧ roomId ∈ rs ∧ s ∉ rs).
Proof.
  simpl. rewrite elem_of_difference, elem_of_union, elem_of_singleton.
  rewrite !elem_of_subscribers. split.
  - intros [(rs & Hrs & Hr) Hnot]. split.
    + intros ->. apply Hnot. by left.
    + exists rs. split_and!; [done | done |]. intros Hs. apply Hnot. right. eauto.
  - intros [Hne (rs & Hrs & Hr & Hs)]. split; [by eauto|].
    intros [?|(rs' & Hrs' & Hs')]; [done|]. congruence.
Qed.

(** The flag of the [forEach] in joinRoom is raised exactly when some member
    with another id holds the name. *)
Lemma usernameTaken_spec users username socketId :
  usernameTaken users username socketId = true ↔
  ∃ user, user ∈ JsMap.values users
          ∧ toLowerCase (User.username user) = toLowerCase username
          ∧ User.id user ≠ socketId.
Proof.
  unfold usernameTaken.
  assert (Hgen : ∀ l acc,
    foldl (λ taken user,
             if bool_decide (toLowerCase (User.username user) = toLowerCase username)
                && negb (bool_decide (User.id user = socketId))
             then true else taken) acc l = true ↔
    acc = true ∨ ∃ user, user ∈ l
          ∧ toLowerCase (User.username user) = toLowerCase username
          ∧ User.id user ≠ socketId).
  { induction l as [|u l IH]; intros acc; simpl.
    - split; [auto | intros [?|(? & Hin & _)]; [done | by apply elem_of_nil in Hin]].
    - rewrite IH. split.
      + intros [Hacc | (v & Hv & ? & ?)].
        * destruct (bool_decide _) eqn:E1; simpl in Hacc;
            [destruct (bool_decide (User.id u = socketId)) eqn:E2; simpl in Hacc|]; auto.
          apply bool_decide_eq_true in E1. apply bool_decide_eq_false in E2.
          right. exists u. split; [left | done].
        * right. exists v. split; [by right | done].
      + intros [-> | (v & Hv & Hn & Hi)].
        * left. by destruct (_ && _).
        * apply elem_of_cons in Hv as [-> | Hv].
          -- left. rewrite (bool_decide_eq_true_2 _ Hn), (bool_decide_eq_false_2 _ Hi). done.
          -- right. eauto. }
  rewrite Hgen. split; [intros [?|?]; [done | auto] | auto].
Qed.

(** *** Admission *)

(** What a rejected join leaves alone.  A joinRoom request for an existing
    room in which a member with a different id holds the requested name
    (compared through [toLowerCase]) is answered by a single [joinRejected]
    with reason [username_taken], addressed to the requesting socket alone;
    the rooms map (hence every member map and buffer, and the set of
    existing rooms) and both registries are left as they were.  The
    socket.io rooms of the requester are not: see [joinRoom_rejected_state]
    below. *)
Theorem joinRoom_name_taken_rejected st socketId username roomId room other :
  rooms st !! roomId = Some room →
  other ∈ JsMap.values (Room.users room) →
  User.id other ≠ socketId →
  toLowerCase (User.username other) = toLowerCase username →
  (joinRoom st socketId username roomId).2
    = [mkEmit (ToSocket socketId)
         (JoinRejected "username_taken" (rejectMessage username))]
  ∧ recipients (socketRooms (joinRoom st socketId username roomId).1)
       (ToSocket socketId) = {[ socketId ]}
  ∧ rooms (joinRoom st socketId username roomId).1 = rooms st
  ∧ rooms (joinRoom st socketId username roomId).1 !! roomId = Some room
  ∧ socketToClientMap (joinRoom st socketId username roomId).1 = socketToClientMap st
  ∧ socketToRoomMap (joinRoom st socketId username roomId).1 = socketToRoomMap st.
Proof.
  intros Hroom Hin Hid Hname.
  assert (Htaken : usernameTaken (Room.users room) username socketId = true).
  { apply usernameTaken_spec. eauto. }
  unfold joinRoom. rewrite Hroom, Htaken. simpl. done.
Qed.

(** The rejection comes after the socket has left its previous socket.io
    rooms: of the whole state, only [socketRooms] at the requester may
    differ. *)
Remark joinRoom_rejected_state st socketId username roomId room :
  rooms st !! roomId = Some room →
  usernameTaken (Room.users room) username socketId = true →
  (joinRoom st socketId username roomId).1
  = mkState (rooms st) (socketToClientMap st) (socketToRoomMap st)
      (alter (leavePrevious socketId) socketId (socketRooms st)).
Proof. intros Hroom Htaken. unfold joinRoom. by rewrite Hroom, Htaken. Qed.

(** What a join that is not rejected does. *)
Lemma joinRoom_admitted st socketId username roomId :
  match rooms st !! roomId with
  | Some room => usernameTaken (Room.users room) username socketId
  | None => false
  end = false →
  let room0 := default (Room.mk [] EmptyString) (rooms st !! roomId) in
  let room := Room.setUsers
                (JsMap.set socketId (newUser socketId username) (Room.users room0)) room0 in
  joinRoom st socketId username roomId =
    (mkState (<[roomId := room]> (rooms st))
             (socketToClientMap st)
             (<[socketId := roomId]> (socketToRoomMap st))
             (alter (joinSet roomId) socketId
                (alter (leavePrevious socketId) socketId (socketRooms st))),
     [mkEmit (ToSocket socketId) (CodeChange (Room.code room));
      mkEmit (ToRoom roomId) (UserList (userListJoin room));
      mkEmit (ToOthers socketId roomId) (UserJoined username);
      mkEmit (ToSocket socketId)
        (JoinedRoom roomId (JsMap.size (Room.users room))
                    (joinedMessage username roomId))]).
Proof. intros H. unfold joinRoom. by rewrite H. Qed.

(** A join either is rejected or is admitted. *)
Lemma joinRoom_cases st socketId username roomId :
  (∃ room, rooms st !! roomId = Some room
           ∧ usernameTaken (Room.users room) username socketId = true
           ∧ joinRoom st socketId username roomId =
               (mkState (rooms st) (socketToClientMap st) (socketToRoomMap st)
                  (alter (leavePrevious socketId) socketId (socketRooms st)),
                [mkEmit (ToSocket socketId)
                   (JoinRejected "username_taken" (rejectMessage username))]))
  ∨ match rooms st !! roomId with
    | Some room => usernameTaken (Room.users room) username socketId
    | None => false
    end = false.
Proof.
  destruct (rooms st !! roomId) as [room|] eqn:Hr; [|by right].
  destruct (usernameTaken (Room.users room) username socketId) eqn:Ht; [|by right].
  left. exists room. split_and!; try done. unfold joinRoom. by rewrite Hr, Ht.
Qed.

(** C7. A joinRoom request for a key that has no room is admitted: the room
    is created with the empty buffer and the requesting connection as its
    only member.  Whenever a join is admitted (the [joinedRoom] event is
    emitted), the buffer the room had before the request (empty for a new
    room) is sent in exactly one [code-change], emitted with [socket.emit],
    whose only recipient is the joining socket. *)
Theorem joinRoom_creates_room_and_catches_up st socketId username roomId :
  (rooms st !! roomId = None →
     rooms (joinRoom st socketId username roomId).1 !! roomId
       = Some (Room.mk [(socketId, User.mk socketId username None [socketId])] EmptyString)
     ∧ mkEmit (ToSocket socketId)
         (JoinedRoom roomId 1 (joinedMessage username roomId))
       ∈ (joinRoom st socketId username roomId).2)
  ∧ (∀ n msg,
       mkEmit (ToSocket socketId) (JoinedRoom roomId n msg)
         ∈ (joinRoom st socketId username roomId).2 →
       let buffer := default EmptyString (Room.code <$> rooms st !! roomId) in
       Room.code <$> rooms (joinRoom st socketId username roomId).1 !! roomId = Some buffer
       ∧ (∀ e, e ∈ (joinRoom st socketId username roomId).2 →
               (∃ c, payload e = CodeChange c) →
               e = mkEmit (ToSocket socketId) (CodeChange buffer))
       ∧ mkEmit (ToSocket socketId) (CodeChange buffer)
           ∈ (joinRoom st socketId username roomId).2
       ∧ recipients (socketRooms (joinRoom st socketId username roomId).1)
           (ToSocket socketId) = {[ socketId ]}).
Proof.
  split.
  - intros Hnone.
    rewrite joinRoom_admitted by (by rewrite Hnone).
    rewrite Hnone. simpl. rewrite lookup_insert_eq. split; [done|].
    do 3 right. left.
  - intros n msg Hjoined.
    destruct (joinRoom_cases st socketId username roomId) as [(room & _ & _ & Hrej)|Hadm].
    { rewrite Hrej in Hjoined. simpl in Hjoined.
      apply list_elem_of_singleton in Hjoined. discriminate. }
    rewrite joinRoom_admitted by done. cbn [fst snd rooms socketRooms].
    rewrite lookup_insert_eq. cbn.
    assert (Hcode : Room.code (default (Room.mk [] EmptyString) (rooms st !! roomId))
                    = default EmptyString (Room.code <$> rooms st !! roomId)).
    { by destruct (rooms st !! roomId). }
    rewrite Hcode. split_and!; [done | | by left | done].
    intros e He [c Hc].
    repeat (apply elem_of_cons in He as [-> | He]); try discriminate; try done.
    by apply elem_of_nil in He.
Qed.

(** *** Relay *)

(** The room lookup of the relay handlers for a socket whose registry entry
    is a non-empty key of an existing room. *)
Lemma guardRoom_registered st socketId roomId room :
  socketToRoomMap st !! socketId = Some roomId →
  roomId ≠ EmptyString →
  rooms st !! roomId = Some room →
  guardRoom st (lookupRoomId st socketId) = Some (roomId, room).
Proof.
  intros Hreg Hne Hroom. unfold lookupRoomId, guardRoom. rewrite Hreg.
  rewrite !decide_False by done. by rewrite Hroom.
Qed.

(** C2 (amended). An edit from a socket registered to an existing room whose
    key is not the empty string overwrites the buffer of that room with the
    payload, leaves the member map alone, and is emitted once, with
    [socket.to(roomId)]: it reaches exactly the sockets that socket.io holds
    in the room and not in the room named by the sender's id; the sender
    gets nothing.  A second edit by any socket registered to the room leaves
    the buffer equal to the second payload. *)
Theorem codeChange_overwrites_and_forwards st socketId roomId room code :
  socketToRoomMap st !! socketId = Some roomId →
  roomId ≠ EmptyString →
  rooms st !! roomId = Some room →
  codeChange st socketId code =
    (setRooms (<[roomId := Room.mk (Room.users room) code]> (rooms st)) st,
     [mkEmit (ToOthers socketId roomId) (CodeChange code)])
  ∧ Room.code <$> rooms (codeChange st socketId code).1 !! roomId = Some code
  ∧ (socketId ∉ recipients (socketRooms (codeChange st socketId code).1)
                  (ToOthers socketId roomId))
  ∧ (∀ c, c ∈ recipients (socketRooms (codeChange st socketId code).1)
                 (ToOthers socketId roomId)
          ↔ (c ≠ socketId
             ∧ ∃ rs, socketRooms st !! c = Some rs ∧ roomId ∈ rs ∧ socketId ∉ rs))
  ∧ (∀ socketId2 code2,
       socketToRoomMap st !! socketId2 = Some roomId →
       Room.code <$>
         rooms (codeChange (codeChange st socketId code).1 socketId2 code2).1 !! roomId
       = Some code2).
Proof.
  intros Hreg Hne Hroom.
  assert (Heq : codeChange st socketId code =
    (setRooms (<[roomId := Room.mk (Room.users room) code]> (rooms st)) st,
     [mkEmit (ToOthers socketId roomId) (CodeChange code)])).
  { unfold codeChange. by rewrite (guardRoom_registered _ _ _ _ Hreg Hne Hroom). }
  rewrite Heq. cbn [fst snd]. split_and!.
  - done.
  - simpl. by rewrite lookup_insert_eq.
  - apply sender_not_in_others.
  - intros c. by rewrite others_in_recipients.
  - intros socketId2 code2 Hreg2. unfold codeChange.
    erewrite guardRoom_registered; [| exact Hreg2 | done | simpl; apply lookup_insert_eq].
    simpl. by rewrite lookup_insert_eq.
Qed.

Lemma stamp_username message username socketId now :
  stamp message username socketId now !! "username" = Some (JStr username).
Proof.
  unfold stamp. rewrite lookup_insert_ne by done.
  rewrite lookup_insert_ne by done. apply lookup_insert_eq.
Qed.

Lemma stamp_sender message username socketId now :
  stamp message username socketId now !! "sender" = Some (JStr socketId).
Proof.
  unfold stamp. rewrite lookup_insert_ne by done. apply lookup_insert_eq.
Qed.

(** C8 (amended). A chat message from a socket registered to an existing
    room with a non-empty key, whose member map has a record under that
    socket's id, changes no state and is emitted once, with
    [socket.to(roomId)]: its [username] field is the stored name of that
    record and its [sender] field is the socket id, whatever the client put
    there; every field other than [username], [sender] and [timestamp] is
    the client's; it reaches exactly the sockets that socket.io holds in the
    room and not in the room named by the sender's id, so never the
    sender. *)
Theorem chatMessage_stamped_and_forwarded st socketId roomId room user message now :
  socketToRoomMap st !! socketId = Some roomId →
  roomId ≠ EmptyString →
  rooms st !! roomId = Some room →
  JsMap.get socketId (Room.users room) = Some user →
  let sent := stamp message (User.username user) socketId now in
  chatMessage st socketId message now =
    (st, [mkEmit (ToOthers socketId roomId) (ChatMessage sent)])
  ∧ sent !! "username" = Some (JStr (User.username user))
  ∧ sent !! "sender" = Some (JStr socketId)
  ∧ (∀ field, field ≠ "username" → field ≠ "sender" → field ≠ "timestamp" →
              sent !! field = message !! field)
  ∧ (socketId ∉ recipients (socketRooms st) (ToOthers socketId roomId))
  ∧ (∀ c, c ∈ recipients (socketRooms st) (ToOthers socketId roomId)
          ↔ (c ≠ socketId
             ∧ ∃ rs, socketRooms st !! c = Some rs ∧ roomId ∈ rs ∧ socketId ∉ rs)).
Proof.
  intros Hreg Hne Hroom Huser sent. split_and!.
  - unfold chatMessage.
    rewrite (guardRoom_registered _ _ _ _ Hreg Hne Hroom). by rewrite Huser.
  - apply stamp_username.
  - apply stamp_sender.
  - intros field H1 H2 H3. unfold sent, stamp.
    by rewrite !lookup_insert_ne.
  - apply sender_not_in_others.
  - intros c. by rewrite others_in_recipients.
Qed.

(** *** Disconnect *)

(** C9. Disconnecting a socket id that neither registry knows leaves the
    rooms map and both registries as they are and emits nothing; and for
    any state, a second disconnect of the same id changes nothing and emits
    nothing after the first. *)
Theorem disconnect_idempotent st socketId :
  (socketToClientMap st !! socketId = None →
   socketToRoomMap st !! socketId = None →
   rooms (disconnect st socketId).1 = rooms st
   ∧ socketToClientMap (disconnect st socketId).1 = socketToClientMap st
   ∧ socketToRoomMap (disconnect st socketId).1 = socketToRoomMap st
   ∧ (disconnect st socketId).2 = [])
  ∧ disconnect (disconnect st socketId).1 socketId = ((disconnect st socketId).1, []).
Proof.
  assert (Habsent : ∀ s : State,
    socketToRoomMap s !! socketId = None →
    disconnect s socketId =
      (mkState (rooms s) (delete socketId (socketToClientMap s))
               (delete socketId (socketToRoomMap s))
               (delete socketId (socketRooms s)), [])).
  { intros s Hs. unfold disconnect. by rewrite Hs. }
  split.
  - intros Hc Hr. rewrite (Habsent st Hr). simpl.
    by rewrite !delete_id.
  - destruct (disconnect st socketId) as [st1 out1] eqn:Hd. simpl.
    assert (Hst1 : ∃ rs, st1 = mkState rs (delete socketId (socketToClientMap st))
                            (delete socketId (socketToRoomMap st))
                            (delete socketId (socketRooms st))).
    { unfold disconnect in Hd.
      destruct (match guardRoom st (socketToRoomMap st !! socketId) with
                | Some (roomId, room) => cleanupRoom st socketId roomId room
                | None => (rooms st, [])
                end) as [rs o].
      exists rs. by inversion Hd. }
    destruct Hst1 as [rs ->].
    rewrite Habsent by (simpl; apply lookup_delete_eq).
    simpl. by rewrite !delete_delete_eq.
Qed.

(** *** Facts about [JsMap] *)

Lemma JsMap_set_nonempty {V} k (v : V) m : JsMap.set k v m ≠ [].
Proof. destruct m as [|[k' v'] m]; simpl; [done | by case_decide]. Qed.

Lemma JsMap_elem_of_set {V} k (v : V) m k' v' :
  NoDup (JsMap.keys m) →
  (k', v') ∈ JsMap.set k v m → (k', v') = (k, v) ∨ ((k', v') ∈ m ∧ k' ≠ k).
Proof.
  unfold JsMap.keys. induction m as [|[k0 v0] m IH]; simpl; intros Hnd.
  - intros ->%list_elem_of_singleton. by left.
  - apply NoDup_cons in Hnd as [Hk0 Hnd]. case_decide as Hk.
    + subst k0. intros [->|Hin]%elem_of_cons; [by left|].
      right. split; [by right|]. intros ->. apply Hk0.
      by apply (list_elem_of_fmap_2 fst) in Hin.
    + intros [Heq|Hin]%elem_of_cons.
      * inversion Heq; subst. right. split; [by left | done].
      * destruct (IH Hnd Hin) as [?|[? ?]]; [by left|]. right. split; [by right | done].
Qed.

Lemma JsMap_keys_set {V} k (v : V) m :
  JsMap.keys (JsMap.set k v m)
  = if decide (k ∈ JsMap.keys m) then JsMap.keys m else JsMap.keys m ++ [k].
Proof.
  unfold JsMap.keys. induction m as [|[k0 v0] m IH]; [done|].
  cbn [JsMap.set]. destruct (decide (k0 = k)) as [->|Hk].
  - rewrite decide_True; [done | by left].
  - rewrite !fmap_cons, IH. cbn [fst].
    destruct (decide (k ∈ m.*1)) as [Hin|Hin].
    + rewrite decide_True; [done | by right].
    + rewrite decide_False; [done|]. intros [?|?]%elem_of_cons; congruence.
Qed.

Lemma JsMap_NoDup_keys_set {V} k (v : V) m :
  NoDup (JsMap.keys m) → NoDup (JsMap.keys (JsMap.set k v m)).
Proof.
  intros Hnd. rewrite JsMap_keys_set. case_decide; [done|].
  apply NoDup_app. split_and!; [done | | apply NoDup_singleton].
  intros x Hx ->%list_elem_of_singleton. done.
Qed.

Lemma JsMap_get_Some {V} k (v : V) m : JsMap.get k m = Some v → (k, v) ∈ m.
Proof.
  induction m as [|[k0 v0] m IH]; simpl; [done|].
  case_decide; [intros [= ->]; subst; by left | intros ?; right; auto].
Qed.

(** Replacing a value by one with the same image under [f] keeps the list
    of images. *)
Lemma JsMap_fmap_set_same {V K} (f : V → K) k (v u : V) m :
  JsMap.get k m = Some u → f v = f u →
  f <$> JsMap.values (JsMap.set k v m) = f <$> JsMap.values m.
Proof.
  unfold JsMap.values. intros Hg Hf.
  induction m as [|[k0 v0] m IH]; [done|].
  cbn [JsMap.set JsMap.get] in *. destruct (decide (k0 = k)) as [->|Hk].
  - injection Hg as ->. rewrite !fmap_cons. cbn [snd]. by rewrite Hf.
  - rewrite !fmap_cons. cbn [snd]. by rewrite IH.
Qed.

Lemma JsMap_delete_sublist {V} k (m : list (string * V)) : JsMap.delete k m `sublist_of` m.
Proof.
  induction m as [|[k0 v0] m IH]; simpl; [done|].
  case_decide; [by apply sublist_cons | by apply sublist_skip].
Qed.

Lemma JsMap_delete_absent {V} k (m : list (string * V)) :
  k ∉ JsMap.keys m → JsMap.delete k m = m.
Proof.
  unfold JsMap.keys. induction m as [|[k0 v0] m IH]; simpl; [done|].
  intros Hk. apply not_elem_of_cons in Hk as [Hne Hk].
  rewrite decide_False by done. by rewrite IH.
Qed.

Lemma JsMap_elem_of_delete {V} k (m : list (string * V)) k' v' :
  (k', v') ∈ JsMap.delete k m ↔ (k', v') ∈ m ∧ k' ≠ k.
Proof.
  induction m as [|[k0 v0] m IH]; simpl.
  - split; [intros []%elem_of_nil | intros [[]%elem_of_nil _]].
  - case_decide as Hk.
    + subst. rewrite IH, elem_of_cons. split.
      * intros [? ?]. split; [by right | done].
      * intros [[Heq|?] ?]; [inversion Heq; congruence | done].
    + rewrite !elem_of_cons, IH. split.
      * intros [Heq|[? ?]]; [inversion Heq; subst; auto | auto].
      * intros [[?|?] ?]; auto.
Qed.

(** *** The invariant is kept by every handler *)

Lemma roomOk_users room code : roomOk room → roomOk (Room.mk (Room.users room) code).
Proof. done. Qed.

Lemma usernameTaken_false users username socketId :
  usernameTaken users username socketId = false →
  ∀ u, u ∈ JsMap.values users →
       toLowerCase (User.username u) = toLowerCase username → User.id u = socketId.
Proof.
  intros Hf u Hu Hn. destruct (decide (User.id u = socketId)) as [|Hne]; [done|].
  assert (usernameTaken users username socketId = true) as Ht
    by (apply usernameTaken_spec; eauto).
  congruence.
Qed.

Lemma NoDup_names_set users k v :
  NoDup (JsMap.keys users) →
  NoDup (lowerName <$> JsMap.values users) →
  (∀ k' u', (k', u') ∈ users → k' ≠ k → lowerName u' ≠ lowerName v) →
  NoDup (lowerName <$> JsMap.values (JsMap.set k v users)).
Proof.
  unfold JsMap.keys, JsMap.values.
  induction users as [|[k0 u0] users IH]; intros Hkeys Hnames Hother.
  - apply NoDup_singleton.
  - cbn [fmap list_fmap fst snd] in Hkeys, Hnames.
    apply NoDup_cons in Hkeys as [Hk0 Hkeys].
    apply NoDup_cons in Hnames as [Hn0 Hnames].
    cbn [JsMap.set]. destruct (decide (k0 = k)) as [->|Hk].
    + rewrite !fmap_cons. cbn [snd]. apply NoDup_cons. split; [|done].
      intros (u' & Heq & Hu')%list_elem_of_fmap.
      apply list_elem_of_fmap in Hu' as ([k' u''] & -> & Hin). cbn [snd] in Heq.
      apply (Hother k' u''); [by right | | done].
      intros ->. apply Hk0. by apply (list_elem_of_fmap_2 fst) in Hin.
    + rewrite !fmap_cons. cbn [snd]. apply NoDup_cons. split.
      * intros (u' & Heq & Hu')%list_elem_of_fmap.
        apply list_elem_of_fmap in Hu' as ([k' u''] & -> & Hin). cbn [snd] in Heq.
        apply JsMap_elem_of_set in Hin as [[= -> ->]|[Hin _]]; [| |done].
        -- apply (Hother k0 u0); [by left | done | done].
        -- apply Hn0. rewrite Heq.
           apply list_elem_of_fmap_2. by apply (list_elem_of_fmap_2 snd) in Hin.
      * apply IH; [done | done |].
        intros k' u' Hin. apply Hother. by right.
Qed.

Lemma roomOk_set_new users socketId username code :
  NoDup (JsMap.keys users) →
  (∀ k u, (k, u) ∈ users → User.id u = k ∧ User.sockets u = [k]) →
  NoDup (lowerName <$> JsMap.values users) →
  usernameTaken users username socketId = false →
  roomOk (Room.mk (JsMap.set socketId (newUser socketId username) users) code).
Proof.
  intros Hkeys Hown Hnames Hfree. unfold roomOk. cbn [Room.users]. split_and!.
  - apply JsMap_set_nonempty.
  - by apply JsMap_NoDup_keys_set.
  - intros k u [[= -> ->]|[Hin _]]%JsMap_elem_of_set; [done | by apply Hown | done].
  - apply NoDup_names_set; [done | done |].
    intros k' u' Hin Hne Heq. apply Hne.
    destruct (Hown _ _ Hin) as [<- _].
    eapply usernameTaken_false; [exact Hfree | | exact Heq].
    by apply (list_elem_of_fmap_2 snd) in Hin.
Qed.

Lemma stateOk_joinRoom st socketId username roomId :
  stateOk st → stateOk (joinRoom st socketId username roomId).1.
Proof.
  intros Hok.
  destruct (joinRoom_cases st socketId username roomId) as [(room & _ & _ & ->)|Hadm];
    [done|].
  rewrite joinRoom_admitted by done. cbn [fst]. intros r room'. cbn [rooms].
  destruct (decide (roomId = r)) as [->|Hne].
  - rewrite lookup_insert_eq. intros [= <-].
    destruct (rooms st !! r) as [room|] eqn:Hr; cbn [default].
    + destruct (Hok _ _ Hr) as (_ & ? & ? & ?). by apply roomOk_set_new.
    + apply roomOk_set_new; try done.
      * apply NoDup_nil_2.
      * intros k u []%elem_of_nil.
      * apply NoDup_nil_2.
  - rewrite lookup_insert_ne by done. apply Hok.
Qed.

Lemma stateOk_peerId st socketId peerId :
  stateOk st → stateOk (peerIdHandler st socketId peerId).1.
Proof.
  intros Hok. unfold peerIdHandler.
  destruct (guardRoom st (lookupRoomId st socketId)) as [[roomId room]|] eqn:Hg; [|done].
  destruct (JsMap.get socketId (Room.users room)) as [user|] eqn:Hu; [|done].
  assert (Hroom : rooms st !! roomId = Some room).
  { unfold guardRoom in Hg. destruct (lookupRoomId st socketId) as [r|]; [|done].
    case_decide; [done|]. destruct (rooms st !! r) eqn:E; [|done]. by injection Hg as -> ->. }
  destruct (Hok _ _ Hroom) as (Hne & Hkeys & Hown & Hnames).
  cbn [fst]. intros r room'. cbn [setRooms rooms].
  destruct (decide (roomId = r)) as [->|Hneq];
    [|rewrite lookup_insert_ne by done; apply Hok].
  rewrite lookup_insert_eq. intros [= <-]. unfold roomOk. cbn [Room.setUsers Room.users].
  split_and!.
  - apply JsMap_set_nonempty.
  - by apply JsMap_NoDup_keys_set.
  - intros k u [[= -> ->]|[Hin _]]%JsMap_elem_of_set; [| by apply Hown | done].
    apply JsMap_get_Some in Hu. by apply Hown in Hu.
  - by rewrite (JsMap_fmap_set_same lowerName _ _ user).
Qed.

Lemma guardRoom_Some st o roomId room :
  guardRoom st o = Some (roomId, room) →
  o = Some roomId ∧ roomId ≠ EmptyString ∧ rooms st !! roomId = Some room.
Proof.
  unfold guardRoom. destruct o as [r|]; [|done].
  case_decide; [done|]. destruct (rooms st !! r) eqn:E; [|done].
  intros [= -> ->]. done.
Qed.

Lemma stateOk_codeChange st socketId code :
  stateOk st → stateOk (codeChange st socketId code).1.
Proof.
  intros Hok. unfold codeChange.
  destruct (guardRoom st (lookupRoomId st socketId)) as [[roomId room]|] eqn:Hg; [|done].
  apply guardRoom_Some in Hg as (_ & _ & Hroom).
  cbn [fst]. intros r room'. cbn [setRooms rooms].
  destruct (decide (roomId = r)) as [->|Hneq];
    [|rewrite lookup_insert_ne by done; apply Hok].
  rewrite lookup_insert_eq. intros [= <-]. apply roomOk_users. eauto.
Qed.

Lemma stateOk_chatMessage st socketId message now :
  stateOk st → stateOk (chatMessage st socketId message now).1.
Proof.
  intros Hok. unfold chatMessage.
  destruct (guardRoom st (lookupRoomId st socketId)) as [[roomId room]|]; [|done].
  by destruct (JsMap.get socketId (Room.users room)).
Qed.

Lemma stateOk_requestUserList st socketId roomId :
  stateOk st → stateOk (requestUserList st socketId roomId).1.
Proof.
  intros Hok. unfold requestUserList.
  by destruct (guardRoom st (Some roomId)) as [[? ?]|].
Qed.

Lemma stateOk_connect st socketId clientId roomIdFromQuery :
  stateOk st → stateOk (connect st socketId clientId roomIdFromQuery).1.
Proof. done. Qed.

Lemma Room_setUsers_id room : Room.setUsers (Room.users room) room = room.
Proof. by destruct room. Qed.

(** The [forEach] of the disconnect handler on a member map whose records
    each hold their own key as their only socket: it empties the record
    stored under the disconnected id, if there is one, and then both locals
    are set; otherwise it changes nothing. *)
Lemma scanSockets_own socketId users found0 flag0 :
  (∀ k u, (k, u) ∈ users → User.sockets u = [k]) →
  ∃ scanned found flag,
    scanSockets socketId users found0 flag0 = (scanned, found, flag)
    ∧ JsMap.delete socketId scanned = JsMap.delete socketId users
    ∧ ((socketId ∈ JsMap.keys users ∧ flag = true ∧ ∃ u, found = Some (u, socketId))
       ∨ ((socketId ∉ JsMap.keys users) ∧ found = found0 ∧ flag = flag0
          ∧ scanned = users)).
Proof.
  unfold JsMap.keys. revert found0 flag0.
  induction users as [|[k u] users IH]; intros found0 flag0 Hown.
  - exists [], found0, flag0. split_and!; [done | done |].
    right. split_and!; try done. apply not_elem_of_nil.
  - assert (Hu : User.sockets u = [k]) by (apply Hown; by left).
    assert (Hrest : ∀ k' u', (k', u') ∈ users → User.sockets u' = [k'])
      by (intros ? ? ?; apply Hown; by right).
    cbn [scanSockets]. rewrite Hu. cbn [indexOf].
    destruct (decide (k = socketId)) as [->|Hne].
    + cbn [User.setSockets User.sockets splice1 take drop app length].
      rewrite decide_True by done.
      destruct (IH (Some (User.setSockets [] u, socketId)) true Hrest)
        as (scanned & found & flag & Heq & Hdel & Hcase).
      rewrite Heq.
      eexists _, found, flag. split_and!; [done | |].
      * cbn [JsMap.delete]. by rewrite !decide_True.
      * left. split; [by left|].
        destruct Hcase as [(_ & -> & ?)|(_ & -> & -> & _)]; eauto.
    + cbn [fmap option_fmap option_map].
      destruct (IH found0 flag0 Hrest) as (scanned & found & flag & Heq & Hdel & Hcase).
      rewrite Heq. eexists _, found, flag. split_and!; [done | |].
      * cbn [JsMap.delete]. rewrite !decide_False by done. by rewrite Hdel.
      * destruct Hcase as [(Hin & ? & ?)|(Hnin & ? & ? & ->)].
        -- left. split; [by right | done].
        -- right. split_and!; try done.
           rewrite fmap_cons. cbn [fst]. intros [?|?]%elem_of_cons; congruence.
Qed.

Lemma roomOk_delete room socketId :
  roomOk room → JsMap.delete socketId (Room.users room) ≠ [] →
  roomOk (Room.setUsers (JsMap.delete socketId (Room.users room)) room).
Proof.
  intros (_ & Hkeys & Hown & Hnames) Hne. unfold roomOk. cbn [Room.setUsers Room.users].
  pose proof (JsMap_delete_sublist socketId (Room.users room)) as Hsub.
  split_and!.
  - done.
  - eapply sublist_NoDup; [exact Hkeys|]. unfold JsMap.keys. by apply fmap_sublist.
  - intros k u [Hin _]%JsMap_elem_of_delete. by apply Hown.
  - eapply sublist_NoDup; [exact Hnames|]. unfold JsMap.values.
    by do 2 apply fmap_sublist.
Qed.

(** The disconnect cleanup of a room that satisfies the invariant. *)
Lemma cleanupRoom_ok st socketId roomId room :
  roomOk room →
  ((socketId ∉ JsMap.keys (Room.users room))
   ∧ cleanupRoom st socketId roomId room = (<[roomId := room]> (rooms st), []))
  ∨ (∃ user, socketId ∈ JsMap.keys (Room.users room)
       ∧ let users' := JsMap.delete socketId (Room.users room) in
         cleanupRoom st socketId roomId room =
           (if decide (JsMap.size users' = 0%nat) then delete roomId (rooms st)
            else <[roomId := Room.setUsers users' room]> (rooms st),
            [mkEmit (ToRoom roomId) (UserLeft (User.username user));
             mkEmit (ToRoom roomId)
               (UserList (userListDisconnect (Room.setUsers users' room)))])).
Proof.
  intros (_ & _ & Hown & _). unfold cleanupRoom.
  destruct (scanSockets_own socketId (Room.users room) None false)
    as (scanned & found & flag & -> & Hdel & Hcase).
  { intros k u Hin. by apply Hown. }
  destruct Hcase as [(Hin & -> & user & ->)|(Hnin & -> & -> & ->)].
  - right. exists user. split; [done|]. cbn zeta. by rewrite Hdel.
  - left. split; [done|]. by rewrite Room_setUsers_id.
Qed.

Lemma stateOk_disconnect st socketId :
  stateOk st → stateOk (disconnect st socketId).1.
Proof.
  intros Hok. unfold disconnect.
  destruct (guardRoom st (socketToRoomMap st !! socketId)) as [[roomId room]|] eqn:Hg;
    [|done].
  apply guardRoom_Some in Hg as (_ & _ & Hroom).
  pose proof (Hok _ _ Hroom) as Hrok.
  destruct (cleanupRoom_ok st socketId roomId room Hrok) as [[_ ->]|(user & _ & ->)].
  - cbn [fst rooms]. by rewrite insert_id.
  - intros r room'. cbn [fst rooms]. case_decide as Hsize.
    + intros Hl. apply lookup_delete_Some in Hl as [_ Hl]. eauto.
    + destruct (decide (roomId = r)) as [->|Hneq];
        [|rewrite lookup_insert_ne by done; apply Hok].
      rewrite lookup_insert_eq. intros [= <-]. apply roomOk_delete; [done|].
      intros Hnil. apply Hsize. unfold JsMap.size. by rewrite Hnil.
Qed.

Lemma stateOk_handle st ev : stateOk st → stateOk (handle st ev).1.
Proof.
  destruct ev; cbn [handle];
    auto using stateOk_connect, stateOk_joinRoom, stateOk_peerId, stateOk_codeChange,
      stateOk_chatMessage, stateOk_disconnect, stateOk_requestUserList.
Qed.

Lemma reachable_stateOk st : reachable st → stateOk st.
Proof.
  induction 1 as [|st ev _ IH _].
  - intros r room Hl. cbn [initial rooms] in Hl. by rewrite lookup_empty in Hl.
  - by apply stateOk_handle.
Qed.

(** *** Rooms and records in reachable states *)

(** The only event that adds a key to the rooms map is a joinRoom for that
    key. *)
Lemma rooms_created_only_by_join st ev key :
  stateOk st →
  rooms st !! key = None →
  is_Some (rooms (handle st ev).1 !! key) →
  ∃ socketId username, ev = JoinRoom socketId username key.
Proof.
  intros Hok Hnone [room' Hsome].
  destruct ev as [s c q|s u r|s pid|s c|s m now|s|s r]; cbn [handle] in Hsome.
  - cbn in Hsome. congruence.
  - destruct (decide (r = key)) as [->|Hne]; [by eauto|]. exfalso.
    destruct (joinRoom_cases st s u r) as [(room & _ & _ & Hrej)|Hadm].
    + rewrite Hrej in Hsome. cbn in Hsome. congruence.
    + rewrite joinRoom_admitted in Hsome by done. cbn [fst rooms] in Hsome.
      rewrite lookup_insert_ne in Hsome by done. congruence.
  - exfalso. unfold peerIdHandler in Hsome.
    destruct (guardRoom st (lookupRoomId st s)) as [[roomId room]|] eqn:Hg;
      [|cbn in Hsome; congruence].
    apply guardRoom_Some in Hg as (_ & _ & Hroom).
    destruct (JsMap.get s (Room.users room)); [|cbn in Hsome; congruence].
    cbn [fst setRooms rooms] in Hsome.
    destruct (decide (roomId = key)) as [->|Hne]; [congruence|].
    rewrite lookup_insert_ne in Hsome by done. congruence.
  - exfalso. unfold codeChange in Hsome.
    destruct (guardRoom st (lookupRoomId st s)) as [[roomId room]|] eqn:Hg;
      [|cbn in Hsome; congruence].
    apply guardRoom_Some in Hg as (_ & _ & Hroom).
    cbn [fst setRooms rooms] in Hsome.
    destruct (decide (roomId = key)) as [->|Hne]; [congruence|].
    rewrite lookup_insert_ne in Hsome by done. congruence.
  - exfalso. unfold chatMessage in Hsome.
    destruct (guardRoom st (lookupRoomId st s)) as [[roomId room]|];
      [|cbn in Hsome; congruence].
    destruct (JsMap.get s (Room.users room)); cbn in Hsome; congruence.
  - exfalso. unfold disconnect in Hsome.
    destruct (guardRoom st (socketToRoomMap st !! s)) as [[roomId room]|] eqn:Hg;
      [|cbn in Hsome; congruence].
    apply guardRoom_Some in Hg as (_ & _ & Hroom).
    destruct (cleanupRoom_ok st s roomId room (Hok _ _ Hroom))
      as [[_ Hc]|(user & _ & Hc)]; rewrite Hc in Hsome; cbn [fst rooms] in Hsome.
    + rewrite insert_id in Hsome by done. congruence.
    + destruct (decide (roomId = key)) as [->|Hne]; [congruence|].
      case_decide.
      * rewrite lookup_delete_ne in Hsome by done. congruence.
      * rewrite lookup_insert_ne in Hsome by done. congruence.
  - exfalso. unfold requestUserList in Hsome.
    destruct (guardRoom st (Some r)) as [[? ?]|]; cbn in Hsome; congruence.
Qed.

(** C3. In every state the event loop can reach, a key present in the rooms
    map has at least one member.  A key enters the rooms map only through a
    joinRoom for it; and when the member whose key is the only one of a
    room disconnects while registered to it, the room is deleted by that
    same disconnect. *)
Theorem reachable_rooms_have_members st roomId room :
  reachable st →
  rooms st !! roomId = Some room →
  Room.users room ≠ []
  ∧ (1 ≤ JsMap.size (Room.users room))%nat
  ∧ (∀ ev key,
       rooms st !! key = None →
       is_Some (rooms (handle st ev).1 !! key) →
       ∃ socketId username, ev = JoinRoom socketId username key)
  ∧ (∀ socketId,
       socketToRoomMap st !! socketId = Some roomId →
       roomId ≠ EmptyString →
       JsMap.keys (Room.users room) = [socketId] →
       rooms (disconnect st socketId).1 !! roomId = None).
Proof.
  intros Hreach Hroom.
  pose proof (reachable_stateOk _ Hreach _ _ Hroom) as Hok.
  pose proof Hok as (Hne & _). split_and!.
  - done.
  - unfold JsMap.size. destruct (Room.users room); [done | simpl; lia].
  - intros ev key. apply rooms_created_only_by_join. by apply reachable_stateOk.
  - intros socketId Hreg Hkey Hkeys. unfold disconnect, guardRoom.
    rewrite Hreg, decide_False, Hroom by done.
    destruct (cleanupRoom_ok st socketId roomId room Hok) as [[Hnin _]|(user & _ & ->)].
    { exfalso. apply Hnin. rewrite Hkeys. by left. }
    assert (Hdel : JsMap.delete socketId (Room.users room) = []).
    { unfold JsMap.keys in Hkeys.
      destruct (Room.users room) as [|[k u] [|? ?]]; try done.
      injection Hkeys as ->. cbn [JsMap.delete]. by rewrite decide_True. }
    cbn [fst rooms]. rewrite Hdel. cbn [JsMap.size length].
    rewrite decide_True by done. apply lookup_delete_eq.
Qed.

Lemma JsMap_get_set {V} k (v : V) m : JsMap.get k (JsMap.set k v m) = Some v.
Proof.
  induction m as [|[k0 v0] m IH]; cbn [JsMap.set JsMap.get].
  - by rewrite decide_True.
  - destruct (decide (k0 = k)) as [->|Hne]; cbn [JsMap.get].
    + by rewrite decide_True.
    + by rewrite decide_False.
Qed.

(** C10. In every reachable state each record of every member map has the
    key it is stored under as its id and as the only element of its
    [sockets] array; an admitted join stores exactly such a record under
    the joining socket's id; and the [forEach] of the disconnect handler
    never ends with a user found but [removeCompletely] still false, so the
    branch that keeps the record is never taken. *)
Theorem reachable_records_hold_own_socket st roomId room :
  reachable st →
  rooms st !! roomId = Some room →
  (∀ k u, (k, u) ∈ Room.users room → User.id u = k ∧ User.sockets u = [k])
  ∧ (∀ socketId username key n msg,
       mkEmit (ToSocket socketId) (JoinedRoom key n msg)
         ∈ (joinRoom st socketId username key).2 →
       ∃ room', rooms (joinRoom st socketId username key).1 !! key = Some room'
                ∧ JsMap.get socketId (Room.users room')
                  = Some (User.mk socketId username None [socketId]))
  ∧ (∀ socketId scanned found,
       scanSockets socketId (Room.users room) None false ≠ (scanned, Some found, false)).
Proof.
  intros Hreach Hroom.
  pose proof (reachable_stateOk _ Hreach _ _ Hroom) as (_ & _ & Hown & _).
  split_and!.
  - done.
  - intros socketId username key n msg Hjoined.
    destruct (joinRoom_cases st socketId username key) as [(r & _ & _ & Hrej)|Hadm].
    { rewrite Hrej in Hjoined. simpl in Hjoined.
      apply list_elem_of_singleton in Hjoined. discriminate. }
    rewrite joinRoom_admitted by done. cbn [fst rooms].
    rewrite lookup_insert_eq. eexists. split; [done|].
    cbn [Room.setUsers Room.users]. apply JsMap_get_set.
  - intros socketId scanned found Hscan.
    destruct (scanSockets_own socketId (Room.users room) None false)
      as (scanned' & found' & flag' & Heq & _ & Hcase).
    { intros k u Hin. by apply Hown. }
    rewrite Heq in Hscan. injection Hscan as -> -> ->.
    destruct Hcase as [(_ & ? & _)|(_ & ? & _)]; done.
Qed.

(** *** Disconnect of a record that keeps other sockets *)

Lemma scanSockets_nil socketId users found0 flag0 scanned found flag :
  scanSockets socketId users found0 flag0 = (scanned, found, flag) →
  scanned = [] → found = found0.
Proof.
  destruct users as [|[k u] users]; cbn [scanSockets].
  - by intros [= <- <- <-].
  - destruct (indexOf socketId (User.sockets u));
      destruct (scanSockets _ _ _ _) as [[? ?] ?]; by intros [= <- <- <-].
Qed.

(** The branch of the disconnect handler that keeps the record (no reachable
    state takes it, since every record holds one socket): when the
    handler finds the disconnected id in a record and no [sockets] array
    became empty, no [userLeft] is emitted and the record stays, and the
    member list of the room is emitted to the room. *)
Lemma disconnect_keeps_record_and_rebroadcasts
    st socketId roomId room scanned user id :
  socketToRoomMap st !! socketId = Some roomId →
  roomId ≠ EmptyString →
  rooms st !! roomId = Some room →
  scanSockets socketId (Room.users room) None false = (scanned, Some (user, id), false) →
  (disconnect st socketId).2
    = [mkEmit (ToRoom roomId)
         (UserList (userListDisconnect (Room.setUsers scanned room)))]
  ∧ (∀ e name, e ∈ (disconnect st socketId).2 → payload e ≠ UserLeft name)
  ∧ rooms (disconnect st socketId).1 !! roomId = Some (Room.setUsers scanned room).
Proof.
  intros Hreg Hkey Hroom Hscan.
  assert (Hne : JsMap.size scanned ≠ 0%nat).
  { intros Hz. destruct scanned; [|done].
    by pose proof (scanSockets_nil _ _ _ _ _ _ _ Hscan eq_refl). }
  assert (Hd : disconnect st socketId =
    (mkState (<[roomId := Room.setUsers scanned room]> (rooms st))
             (delete socketId (socketToClientMap st))
             (delete socketId (socketToRoomMap st))
             (delete socketId (socketRooms st)),
     [mkEmit (ToRoom roomId)
        (UserList (userListDisconnect (Room.setUsers scanned room)))])).
  { unfold disconnect, guardRoom. rewrite Hreg, decide_False, Hroom by done.
    unfold cleanupRoom. rewrite Hscan. by rewrite decide_False. }
  rewrite Hd. cbn [fst snd rooms]. split_and!.
  - done.
  - intros e name ->%list_elem_of_singleton. done.
  - apply lookup_insert_eq.
Qed.

(** *** Member lists *)

Lemma findIndex_app_found {A} (p : A → bool) pre l y :
  y ∈ pre → p y = true →
  ∃ i, findIndex p (pre ++ l) = Some i ∧ (i < length pre)%nat.
Proof.
  induction pre as [|x pre IH]; [by intros ?%elem_of_nil|].
  intros Hin Hy. cbn [app findIndex]. destruct (p x) eqn:Hx.
  - exists 0%nat. split; [done | simpl; lia].
  - apply elem_of_cons in Hin as [->|Hin]; [congruence|].
    destruct (IH Hin Hy) as (i & -> & Hi). exists (S i). split; [done | simpl; lia].
Qed.

Lemma findIndex_app_here {A} (p : A → bool) pre x rest :
  (∀ y, y ∈ pre → p y = false) → p x = true →
  findIndex p (pre ++ x :: rest) = Some (length pre).
Proof.
  induction pre as [|z pre IH]; intros Hpre Hx; cbn [app findIndex length].
  - by rewrite Hx.
  - rewrite (Hpre z) by (by left). rewrite IH; [done | | done].
    intros y Hy. apply Hpre. by right.
Qed.

(** The [filter] / [findIndex] idiom of the handlers keeps the first
    element seen with each key. *)
Lemma filterFrom_firstSeen {A K} `{EqDecision K} (key : A → K) pre seen l :
  (∀ k, k ∈ seen ↔ k ∈ key <$> pre) →
  filterFrom (λ x index self,
      bool_decide (Some index = findIndex (λ u, bool_decide (key u = key x)) self))
    (pre ++ l) (length pre) l
  = firstSeen key seen l.
Proof.
  revert pre seen. induction l as [|x rest IH]; intros pre seen Hseen; [done|].
  cbn [filterFrom firstSeen].
  destruct (decide (key x ∈ seen)) as [Hin|Hnin].
  - apply Hseen, list_elem_of_fmap in Hin as (y & Hy & Hin).
    destruct (findIndex_app_found (λ u, bool_decide (key u = key x)) pre (x :: rest) y)
      as (i & -> & Hi); [done | by apply bool_decide_eq_true | ].
    rewrite bool_decide_eq_false_2 by (intros [= Heq]; lia).
    replace (pre ++ x :: rest) with ((pre ++ [x]) ++ rest)
      by (by rewrite <- app_assoc).
    replace (S (length pre)) with (length (pre ++ [x]))
      by (rewrite length_app; simpl; lia).
    apply IH. intros k. rewrite Hseen, fmap_app, elem_of_app. split; [auto|].
    intros [?|Hk]; [done|]. apply list_elem_of_singleton in Hk as ->.
    apply list_elem_of_fmap. eauto.
  - rewrite findIndex_app_here.
    + rewrite bool_decide_eq_true_2 by done. f_equal.
      replace (pre ++ x :: rest) with ((pre ++ [x]) ++ rest)
        by (by rewrite <- app_assoc).
      replace (S (length pre)) with (length (pre ++ [x]))
        by (rewrite length_app; simpl; lia).
      apply IH. intros k.
      rewrite elem_of_cons, Hseen, fmap_app, elem_of_app. cbn [fmap list_fmap].
      rewrite list_elem_of_singleton. tauto.
    + intros y Hy. apply bool_decide_eq_false. intros Heq.
      apply Hnin, Hseen. rewrite <- Heq. by apply list_elem_of_fmap_2.
    + by apply bool_decide_eq_true.
Qed.

Lemma filterIndexed_firstSeen {A K} `{EqDecision K} (key : A → K) l :
  filterIndexed (λ x index self,
      bool_decide (Some index = findIndex (λ u, bool_decide (key u = key x)) self)) l
  = firstSeen key [] l.
Proof.
  unfold filterIndexed. apply (filterFrom_firstSeen key [] [] l).
  intros k. split; intros []%elem_of_nil.
Qed.

(** Nothing is dropped from a list whose keys are pairwise distinct. *)
Lemma firstSeen_NoDup {A K} `{EqDecision K} (key : A → K) seen l :
  NoDup (key <$> l) → (∀ x, x ∈ l → key x ∉ seen) → firstSeen key seen l = l.
Proof.
  revert seen. induction l as [|x rest IH]; intros seen Hnd Hseen; [done|].
  cbn [firstSeen]. rewrite fmap_cons in Hnd. apply NoDup_cons in Hnd as [Hx Hnd].
  rewrite decide_False by (apply Hseen; by left). f_equal.
  apply IH; [done|]. intros y Hy [Heq|Hin]%elem_of_cons.
  - apply Hx. rewrite <- Heq. by apply list_elem_of_fmap_2.
  - by apply (Hseen y); [right|].
Qed.


Lemma userListDisconnect_spec room :
  userListDisconnect room
  = toEntry <$> firstSeen User.username [] (JsMap.values (Room.users room)).
Proof.
  unfold userListDisconnect. by rewrite (filterIndexed_firstSeen User.username).
Qed.

Lemma roomOk_lists room :
  NoDup (lowerName <$> JsMap.values (Room.users room)) →
  userListDisconnect room = computeMemberList room
  ∧ userListAll room = computeMemberList room.
Proof.
  intros Hnames. rewrite userListDisconnect_spec. unfold computeMemberList, userListAll.
  rewrite !firstSeen_NoDup; [done | done | | | ].
  - intros x _ []%elem_of_nil.
  - assert (Hcomp : lowerName <$> JsMap.values (Room.users room)
                    = toLowerCase <$> (User.username <$> JsMap.values (Room.users room))).
    { by rewrite <- list_fmap_compose. }
    rewrite Hcomp in Hnames. by apply NoDup_fmap_1 in Hnames.
  - intros x _ []%elem_of_nil.
Qed.


(** *** Running traces *)

Lemma enabledb_enabled st ev : enabledb st ev = true → enabled st ev.
Proof.
  destruct ev; cbn [enabledb enabled];
    destruct (socketRooms st !! socketId); intros; try done; by eexists.
Qed.

Lemma reachable_run st evs :
  reachable st → allEnabled st evs = true → reachable (run st evs).
Proof.
  revert st. induction evs as [|ev evs IH]; intros st Hreach Hall; [done|].
  cbn [allEnabled] in Hall. apply andb_prop in Hall as [Hen Hall].
  cbn [run foldl]. apply IH; [|done].
  apply reachable_step; [done | by apply enabledb_enabled].
Qed.

(** ** Further properties of the handlers *)

(** *** GET /check-username *)

Lemma elem_of_names_fold (f : User.t → string) (l : list User.t) (acc : gset string) x :
  x ∈ foldl (λ names user, {[ f user ]} ∪ names) acc l
  ↔ x ∈ acc ∨ ∃ user, user ∈ l ∧ x = f user.
Proof.
  revert acc. induction l as [|u l IH]; intros acc; cbn [foldl].
  - split; [by left | intros [?|(? & Hin & _)]; [done | by apply elem_of_nil in Hin]].
  - rewrite IH, elem_of_union, elem_of_singleton. split.
    + intros [[->|?]|(v & Hv & ->)].
      * right. exists u. split; [by left | done].
      * by left.
      * right. exists v. split; [by right | done].
    + intros [?|(v & Hv & ->)]; [by left; right|].
      apply elem_of_cons in Hv as [->|Hv]; [by left; left|].
      right. eauto.
Qed.

Lemma checkUsername_present st name key :
  name ≠ EmptyString → key ≠ EmptyString →
  ∃ available,
    checkUsername st (Some name) (Some key) = Json available
    ∧ (available = false ↔
       ∃ room user, rooms st !! key = Some room
                    ∧ user ∈ JsMap.values (Room.users room)
                    ∧ toLowerCase (User.username user) = toLowerCase name).
Proof.
  intros Hname Hkey. unfold checkUsername.
  cbn [isTruthy default from_option id].
  assert (Ht : ∀ x, x ≠ EmptyString → (x =? EmptyString)%string = false)
    by (intros x Hx; by apply String.eqb_neq).
  rewrite !Ht by done. cbn [negb orb].
  destruct (rooms st !! key) as [room|] eqn:Hroom.
  - eexists. split; [done|]. rewrite negb_false_iff, bool_decide_eq_true.
    rewrite elem_of_names_fold. split.
    + intros [[]%elem_of_empty|(user & Hin & Heq)]. eauto.
    + intros (room' & user & [= <-] & Hin & Heq). right. eauto.
  - exists true. split; [done|]. split; [done|].
    intros (room & user & [=] & _).
Qed.

(** X1. The endpoint answers 400 when a parameter is missing or empty.
    Otherwise it answers [available: false] exactly when the room exists
    and one of its members holds the name up to [toLowerCase]. *)
Theorem checkUsername_answer st username roomId :
  (isTruthy username = false ∨ isTruthy roomId = false →
   checkUsername st username roomId = Status400 "Username and roomId are required")
  ∧ (∀ name key,
       username = Some name → roomId = Some key →
       name ≠ EmptyString → key ≠ EmptyString →
       ∃ available,
         checkUsername st username roomId = Json available
         ∧ (available = false ↔
            ∃ room user, rooms st !! key = Some room
                         ∧ user ∈ JsMap.values (Room.users room)
                         ∧ toLowerCase (User.username user) = toLowerCase name)).
Proof.
  split.
  - intros [H|H]; unfold checkUsername; rewrite H; [done|].
    by destruct (isTruthy username).
  - intros name key -> ->. apply checkUsername_present.
Qed.

(** X2. When the endpoint answers [available: true], a joinRoom with that name
    and room, in the same state and from any socket, is admitted. *)
Theorem checkUsername_available_join_admitted st username roomId socketId :
  checkUsername st (Some username) (Some roomId) = Json true →
  mkEmit (ToSocket socketId)
    (JoinedRoom roomId
       (JsMap.size (JsMap.set socketId (newUser socketId username)
          (default [] (Room.users <$> rooms st !! roomId))))
       (joinedMessage username roomId))
  ∈ (joinRoom st socketId username roomId).2.
Proof.
  intros Hcheck.
  assert (Hfree : match rooms st !! roomId with
                  | Some room => usernameTaken (Room.users room) username socketId
                  | None => false
                  end = false).
  { destruct (rooms st !! roomId) as [room|] eqn:Hroom; [|done].
    destruct (usernameTaken (Room.users room) username socketId) eqn:Htaken; [|done].
    apply usernameTaken_spec in Htaken as (user & Hin & Heq & _).
    unfold checkUsername in Hcheck. cbn [isTruthy default from_option id] in Hcheck.
    destruct (negb (negb (username =? EmptyString)%string)
              || negb (negb (roomId =? EmptyString)%string)); [done|].
    rewrite Hroom in Hcheck. injection Hcheck as Hcheck.
    apply negb_true_iff, bool_decide_eq_false in Hcheck.
    exfalso. apply Hcheck. apply elem_of_names_fold. right. eauto. }
  rewrite joinRoom_admitted by done. cbn [snd].
  destruct (rooms st !! roomId); do 3 right; by left.
Qed.

(** *** Names in reachable states *)

Lemma NoDup_fmap_eq {A B} (f : A → B) (l : list A) x y :
  NoDup (f <$> l) → x ∈ l → y ∈ l → f x = f y → x = y.
Proof.
  induction l as [|z l IH]; [by intros _ ?%elem_of_nil|].
  rewrite fmap_cons. intros [Hz Hnd]%NoDup_cons Hx Hy Heq.
  apply elem_of_cons in Hx as [->|Hx]; apply elem_of_cons in Hy as [->|Hy].
  - done.
  - exfalso. apply Hz. rewrite Heq. by apply list_elem_of_fmap_2.
  - exfalso. apply Hz. rewrite <- Heq. by apply list_elem_of_fmap_2.
  - by apply IH.
Qed.

Lemma roomOk_name_owner room k1 u1 k2 u2 :
  roomOk room →
  (k1, u1) ∈ Room.users room → (k2, u2) ∈ Room.users room →
  toLowerCase (User.username u1) = toLowerCase (User.username u2) →
  k1 = k2 ∧ u1 = u2.
Proof.
  intros (_ & _ & Hown & Hnames) H1 H2 Heq.
  assert (u1 = u2) as <-.
  { apply (NoDup_fmap_eq lowerName (JsMap.values (Room.users room))); [done | | | done].
    - by apply (list_elem_of_fmap_2 snd) in H1.
    - by apply (list_elem_of_fmap_2 snd) in H2. }
  split; [|done]. destruct (Hown _ _ H1) as [<- _]. by destruct (Hown _ _ H2) as [<- _].
Qed.

(** X3. In every reachable state the names of a room are unique up to
    [toLowerCase]: two entries of a member map whose names agree after
    lower-casing are the same entry. *)
Theorem reachable_names_unique st roomId room k1 u1 k2 u2 :
  reachable st →
  rooms st !! roomId = Some room →
  (k1, u1) ∈ Room.users room →
  (k2, u2) ∈ Room.users room →
  toLowerCase (User.username u1) = toLowerCase (User.username u2) →
  k1 = k2 ∧ u1 = u2.
Proof.
  intros Hreach Hroom. apply roomOk_name_owner.
  by apply (reachable_stateOk _ Hreach _ _ Hroom).
Qed.

Lemma JsMap_size_set_present {V} k (v u : V) m :
  JsMap.get k m = Some u → JsMap.size (JsMap.set k v m) = JsMap.size m.
Proof.
  unfold JsMap.size. induction m as [|[k0 v0] m IH]; cbn [JsMap.get JsMap.set]; [done|].
  destruct (decide (k0 = k)); [done|]. intros Hg. cbn [length]. f_equal. by apply IH.
Qed.

(** X4. The endpoint is stricter than joinRoom: for the name a socket already
    holds in a room of a reachable state it answers [available: false],
    while a joinRoom of that socket with that name is admitted. *)
Theorem checkUsername_refuses_own_name st roomId room socketId user username :
  reachable st →
  rooms st !! roomId = Some room →
  JsMap.get socketId (Room.users room) = Some user →
  toLowerCase (User.username user) = toLowerCase username →
  username ≠ EmptyString →
  roomId ≠ EmptyString →
  checkUsername st (Some username) (Some roomId) = Json false
  ∧ mkEmit (ToSocket socketId)
      (JoinedRoom roomId (JsMap.size (Room.users room)) (joinedMessage username roomId))
    ∈ (joinRoom st socketId username roomId).2.
Proof.
  intros Hreach Hroom Hget Hname Hu Hr.
  pose proof (reachable_stateOk _ Hreach _ _ Hroom) as Hok.
  pose proof (JsMap_get_Some _ _ _ Hget) as Hin.
  split.
  - destruct (checkUsername_present st username roomId Hu Hr) as (b & -> & Hb).
    f_equal. apply Hb. exists room, user. split_and!; [done | | done].
    by apply (list_elem_of_fmap_2 snd) in Hin.
  - assert (Hfree : usernameTaken (Room.users room) username socketId = false).
    { destruct (usernameTaken (Room.users room) username socketId) eqn:Ht; [|done].
      apply usernameTaken_spec in Ht as (other & Ho & Heq & Hid). exfalso. apply Hid.
      apply list_elem_of_fmap in Ho as ([k o] & -> & Ho). cbn [snd] in *.
      destruct (roomOk_name_owner room k o socketId user Hok Ho Hin) as [-> ->];
        [congruence|].
      by destruct Hok as (_ & _ & Hown & _); destruct (Hown _ _ Hin) as [-> _]. }
    rewrite joinRoom_admitted by (by rewrite Hroom). rewrite Hroom.
    cbn [snd default from_option id Room.setUsers Room.users].
    rewrite (JsMap_size_set_present _ _ user) by done. do 3 right. by left.
Qed.

(** *** More facts about [JsMap] *)

Lemma JsMap_get_set_ne {V} k k' (v : V) m :
  k' ≠ k → JsMap.get k' (JsMap.set k v m) = JsMap.get k' m.
Proof.
  intros Hne. induction m as [|[k0 v0] m IH]; cbn [JsMap.set JsMap.get].
  - by rewrite decide_False.
  - destruct (decide (k0 = k)) as [->|Hk]; cbn [JsMap.get].
    + by rewrite !decide_False.
    + by rewrite IH.
Qed.

Lemma JsMap_get_keys {V} k (m : list (string * V)) :
  is_Some (JsMap.get k m) ↔ k ∈ JsMap.keys m.
Proof.
  unfold JsMap.keys. induction m as [|[k0 v0] m IH]; cbn [JsMap.get].
  - split; [by intros [? ?] | by intros ?%elem_of_nil].
  - rewrite fmap_cons, elem_of_cons. cbn [fst].
    destruct (decide (k0 = k)) as [->|Hk].
    + split; [by left | by eexists].
    + rewrite IH. split; [by right | by intros [?|?]; [congruence|]].
Qed.

Lemma JsMap_keys_set_present {V} k (v u : V) m :
  JsMap.get k m = Some u → JsMap.keys (JsMap.set k v m) = JsMap.keys m.
Proof.
  intros Hg. rewrite JsMap_keys_set. rewrite decide_True; [done|].
  apply JsMap_get_keys. by eexists.
Qed.

Lemma JsMap_keys_set_subseteq {V} k (v : V) m :
  JsMap.keys m ⊆ JsMap.keys (JsMap.set k v m).
Proof.
  rewrite JsMap_keys_set. case_decide; [done|].
  intros x Hx. apply elem_of_app. by left.
Qed.

(** *** connection, then a rejected joinRoom, then code-change *)

(** X5. A socket that connects with [clientId] and [roomId] in its query is
    registered to that room at once.  If its joinRoom is then rejected it
    stays registered: its code-change overwrites the buffer of the room and
    is sent to the room, while its chat messages are dropped as long as it
    has no record in the member map. *)
Theorem rejected_socket_still_edits
    st socketId clientId roomId room other username code :
  clientId ≠ EmptyString →
  roomId ≠ EmptyString →
  rooms st !! roomId = Some room →
  other ∈ JsMap.values (Room.users room) →
  User.id other ≠ socketId →
  toLowerCase (User.username other) = toLowerCase username →
  let st1 := (connect st socketId (Some clientId) (Some roomId)).1 in
  let st2 := (joinRoom st1 socketId username roomId).1 in
  (joinRoom st1 socketId username roomId).2
    = [mkEmit (ToSocket socketId)
         (JoinRejected "username_taken" (rejectMessage username))]
  ∧ (codeChange st2 socketId code).2
    = [mkEmit (ToOthers socketId roomId) (CodeChange code)]
  ∧ rooms (codeChange st2 socketId code).1 !! roomId
    = Some (Room.mk (Room.users room) code)
  ∧ (JsMap.get socketId (Room.users room) = None →
     ∀ message now, chatMessage st2 socketId message now = (st2, [])).
Proof.
  intros Hc Hr Hroom Hin Hid Hname st1 st2.
  assert (Htaken : usernameTaken (Room.users room) username socketId = true)
    by (apply usernameTaken_spec; eauto).
  assert (Ht : ∀ x, x ≠ EmptyString → (x =? EmptyString)%string = false)
    by (intros x Hx; by apply String.eqb_neq).
  assert (Hst1 : rooms st1 = rooms st ∧ socketToRoomMap st1 !! socketId = Some roomId).
  { unfold st1, connect. cbn [fst rooms socketToRoomMap isTruthy default from_option id].
    rewrite !Ht by done. cbn [negb andb]. split; [done | apply lookup_insert_eq]. }
  destruct Hst1 as [Hrooms1 Hreg1].
  assert (Hroom1 : rooms st1 !! roomId = Some room) by (by rewrite Hrooms1).
  assert (Hst2 : st2 = mkState (rooms st1) (socketToClientMap st1) (socketToRoomMap st1)
                         (alter (leavePrevious socketId) socketId (socketRooms st1)))
    by (by apply (joinRoom_rejected_state st1 socketId username roomId room)).
  assert (Hg : guardRoom st2 (lookupRoomId st2 socketId) = Some (roomId, room)).
  { apply guardRoom_registered; [|done|]; by rewrite Hst2. }
  split_and!.
  - unfold joinRoom. by rewrite Hroom1, Htaken.
  - unfold codeChange. by rewrite Hg.
  - unfold codeChange. rewrite Hg. cbn [fst setRooms rooms]. apply lookup_insert_eq.
  - intros Hnone message now. unfold chatMessage. by rewrite Hg, Hnone.
Qed.

(** *** peer-id *)

(** X6. A peer-id from a member of the room it is registered to (non-empty key)
    writes the peer id into that member's record and nothing else: the
    order of the member map, the other records, the name, the sockets and
    the buffer stay; the whole member list, unfiltered, goes to the room. *)
Theorem peerId_sets_own_record st socketId roomId room user peerId :
  socketToRoomMap st !! socketId = Some roomId →
  roomId ≠ EmptyString →
  rooms st !! roomId = Some room →
  JsMap.get socketId (Room.users room) = Some user →
  ∃ room',
    rooms (peerIdHandler st socketId peerId).1 !! roomId = Some room'
    ∧ Room.code room' = Room.code room
    ∧ JsMap.keys (Room.users room') = JsMap.keys (Room.users room)
    ∧ JsMap.get socketId (Room.users room')
      = Some (User.mk (User.id user) (User.username user) (Some peerId)
                (User.sockets user))
    ∧ (∀ k, k ≠ socketId →
            JsMap.get k (Room.users room') = JsMap.get k (Room.users room))
    ∧ (∀ r, r ≠ roomId →
            rooms (peerIdHandler st socketId peerId).1 !! r = rooms st !! r)
    ∧ (peerIdHandler st socketId peerId).2
      = [mkEmit (ToRoom roomId)
           (UserList (toEntry <$> JsMap.values (Room.users room')))].
Proof.
  intros Hreg Hne Hroom Hget. unfold peerIdHandler.
  rewrite (guardRoom_registered _ _ _ _ Hreg Hne Hroom), Hget.
  cbn [fst snd setRooms rooms]. eexists. split; [apply lookup_insert_eq|].
  cbn [Room.setUsers Room.users Room.code]. split_and!.
  - done.
  - by apply (JsMap_keys_set_present _ _ user).
  - apply JsMap_get_set.
  - intros k Hk. by apply JsMap_get_set_ne.
  - intros r Hr. by rewrite lookup_insert_ne.
  - done.
Qed.

(** *** code-change and chat-message: what they leave alone *)

(** X7. A code-change never touches a registry, a socket.io subscription, a
    member map or the set of rooms; it can change the buffer of the one
    room the handler's lookup yields and of no other. *)
Theorem codeChange_frame st socketId code :
  socketToClientMap (codeChange st socketId code).1 = socketToClientMap st
  ∧ socketToRoomMap (codeChange st socketId code).1 = socketToRoomMap st
  ∧ socketRooms (codeChange st socketId code).1 = socketRooms st
  ∧ (∀ r, Room.users <$> rooms (codeChange st socketId code).1 !! r
          = Room.users <$> rooms st !! r)
  ∧ (∀ r, lookupRoomId st socketId ≠ Some r →
          rooms (codeChange st socketId code).1 !! r = rooms st !! r).
Proof.
  unfold codeChange.
  destruct (guardRoom st (lookupRoomId st socketId)) as [[roomId room]|] eqn:Hg;
    [|done].
  apply guardRoom_Some in Hg as (Hl & _ & Hroom).
  cbn [fst setRooms rooms socketToClientMap socketToRoomMap socketRooms].
  split_and!; try done.
  - intros r. destruct (decide (roomId = r)) as [->|Hne].
    + by rewrite lookup_insert_eq, Hroom.
    + by rewrite lookup_insert_ne.
  - intros r Hr. rewrite lookup_insert_ne; [done|]. congruence.
Qed.

(** X8. A chat message never changes the state, and what it emits is at most
    one [chat-message], addressed with [socket.to], which leaves the sender
    out. *)
Theorem chatMessage_keeps_state st socketId message now :
  (chatMessage st socketId message now).1 = st
  ∧ (length (chatMessage st socketId message now).2 ≤ 1)%nat
  ∧ (∀ e, e ∈ (chatMessage st socketId message now).2 →
          (∃ roomId sent, e = mkEmit (ToOthers socketId roomId) (ChatMessage sent))
          ∧ socketId ∉ recipients (socketRooms st) (target e)).
Proof.
  unfold chatMessage.
  destruct (guardRoom st (lookupRoomId st socketId)) as [[roomId room]|];
    [destruct (JsMap.get socketId (Room.users room))|]; cbn [fst snd length].
  - split_and!; [done | lia |]. intros e ->%list_elem_of_singleton.
    split; [by eauto | apply sender_not_in_others].
  - split_and!; [done | lia | by intros e ?%elem_of_nil].
  - split_and!; [done | lia | by intros e ?%elem_of_nil].
Qed.

(** *** requestUserList *)

(** X9. requestUserList never changes the state and asks for no membership.
    For the empty key or a key without room the requester alone gets the
    empty list, whatever room '' holds; otherwise the unfiltered member
    list is emitted to the requester and then to the room, so a requester
    that is in the room is a recipient of both. *)
Theorem requestUserList_answer st socketId roomId :
  (requestUserList st socketId roomId).1 = st
  ∧ (roomId = EmptyString ∨ rooms st !! roomId = None →
     (requestUserList st socketId roomId).2
     = [mkEmit (ToSocket socketId) (UserList [])])
  ∧ (∀ room,
       roomId ≠ EmptyString →
       rooms st !! roomId = Some room →
       (requestUserList st socketId roomId).2
       = [mkEmit (ToSocket socketId)
            (UserList (toEntry <$> JsMap.values (Room.users room)));
          mkEmit (ToRoom roomId)
            (UserList (toEntry <$> JsMap.values (Room.users room)))]
       ∧ (∀ rs e, socketRooms st !! socketId = Some rs → roomId ∈ rs →
                  e ∈ (requestUserList st socketId roomId).2 →
                  socketId ∈ recipients (socketRooms st) (target e))).
Proof.
  unfold requestUserList, guardRoom. split_and!.
  - case_decide; [done|]. by destruct (rooms st !! roomId).
  - intros [->|Hnone]; [done|]. case_decide; [done|]. by rewrite Hnone.
  - intros room Hne Hroom. rewrite decide_False, Hroom by done. split; [done|].
    intros rs e Hrs Hin He. cbn [snd] in He.
    apply elem_of_cons in He as [->|He]; [by apply elem_of_singleton|].
    apply list_elem_of_singleton in He as ->. cbn [target recipients].
    apply elem_of_subscribers. eauto.
Qed.

(** *** joinRoom: re-joining and subscriptions *)

Lemma usernameTaken_false_intro users username socketId :
  (∀ u, u ∈ JsMap.values users →
        toLowerCase (User.username u) = toLowerCase username → User.id u = socketId) →
  usernameTaken users username socketId = false.
Proof.
  intros Hall. destruct (usernameTaken users username socketId) eqn:Ht; [|done].
  apply usernameTaken_spec in Ht as (u & Hu & Hn & Hid). by apply Hall in Hu.
Qed.

(** X10. A socket that is already a key of the member map and joins the same
    room again (under a name no record with another id holds) is replaced
    in place: the order and number of members and the buffer stay, the
    other records stay, and its own record is a fresh one, with the new
    name and no peer id. *)
Theorem joinRoom_rejoin_in_place st socketId username roomId room user :
  rooms st !! roomId = Some room →
  JsMap.get socketId (Room.users room) = Some user →
  (∀ u, u ∈ JsMap.values (Room.users room) →
        toLowerCase (User.username u) = toLowerCase username → User.id u = socketId) →
  ∃ room',
    rooms (joinRoom st socketId username roomId).1 !! roomId = Some room'
    ∧ JsMap.keys (Room.users room') = JsMap.keys (Room.users room)
    ∧ Room.code room' = Room.code room
    ∧ JsMap.get socketId (Room.users room')
      = Some (User.mk socketId username None [socketId])
    ∧ (∀ k, k ≠ socketId →
            JsMap.get k (Room.users room') = JsMap.get k (Room.users room))
    ∧ mkEmit (ToSocket socketId)
        (JoinedRoom roomId (JsMap.size (Room.users room)) (joinedMessage username roomId))
      ∈ (joinRoom st socketId username roomId).2.
Proof.
  intros Hroom Hget Hfree. apply usernameTaken_false_intro in Hfree.
  rewrite joinRoom_admitted by (by rewrite Hroom). rewrite Hroom.
  cbn [fst snd rooms default from_option id Room.setUsers Room.users].
  eexists. split; [apply lookup_insert_eq|]. cbn [Room.users Room.code]. split_and!.
  - by apply (JsMap_keys_set_present _ _ user).
  - done.
  - apply JsMap_get_set.
  - intros k Hk. by apply JsMap_get_set_ne.
  - rewrite (JsMap_size_set_present _ _ user) by done. do 3 right. by left.
Qed.

Lemma elem_of_joinSet roomId rs r : r ∈ joinSet roomId rs ↔ r = roomId ∨ r ∈ rs.
Proof.
  unfold joinSet. case_decide as Hin.
  - split; [by right | by intros [->|?]].
  - rewrite elem_of_app, list_elem_of_singleton. split; intros [?|?]; auto.
Qed.

Lemma elem_of_leavePrevious socketId rs r :
  r ∈ leavePrevious socketId rs ↔ r = socketId ∧ r ∈ rs.
Proof. unfold leavePrevious. rewrite list_elem_of_filter. done. Qed.

(** X11. After an admitted joinRoom a live socket is registered to the room, is
    in the room for socket.io (so it receives the member list sent to the
    room) and in no other room but its own; the subscriptions of all other
    sockets are as before. *)
Theorem joinRoom_admitted_subscribes st socketId username roomId rs n msg :
  socketRooms st !! socketId = Some rs →
  mkEmit (ToSocket socketId) (JoinedRoom roomId n msg)
    ∈ (joinRoom st socketId username roomId).2 →
  socketToRoomMap (joinRoom st socketId username roomId).1 !! socketId = Some roomId
  ∧ socketId ∈ recipients (socketRooms (joinRoom st socketId username roomId).1)
                 (ToRoom roomId)
  ∧ (∀ r, socketId ∈ subscribers (socketRooms (joinRoom st socketId username roomId).1) r →
          r = socketId ∨ r = roomId)
  ∧ (∀ c r, c ≠ socketId →
            c ∈ subscribers (socketRooms (joinRoom st socketId username roomId).1) r
            ↔ c ∈ subscribers (socketRooms st) r).
Proof.
  intros Hrs Hjoined.
  destruct (joinRoom_cases st socketId username roomId) as [(room & _ & _ & Hrej)|Hadm].
  { rewrite Hrej in Hjoined. apply list_elem_of_singleton in Hjoined. discriminate. }
  rewrite joinRoom_admitted by done. cbn [fst socketToRoomMap socketRooms].
  assert (Hown : alter (joinSet roomId) socketId
                   (alter (leavePrevious socketId) socketId (socketRooms st)) !! socketId
                 = Some (joinSet roomId (leavePrevious socketId rs)))
    by (by rewrite !lookup_alter_eq, Hrs).
  split_and!.
  - apply lookup_insert_eq.
  - cbn [recipients]. apply elem_of_subscribers. eexists. split; [exact Hown|].
    apply elem_of_joinSet. by left.
  - intros r (rs' & Hl & Hr)%elem_of_subscribers. rewrite Hown in Hl.
    injection Hl as <-. apply elem_of_joinSet in Hr as [->|Hr]; [by right|].
    apply elem_of_leavePrevious in Hr as [-> _]. by left.
  - intros c r Hc. rewrite !elem_of_subscribers.
    by rewrite !lookup_alter_ne.
Qed.

(** *** What removes members and rooms *)

Lemma cleanupRoom_other_rooms st socketId roomId room r :
  r ≠ roomId → (cleanupRoom st socketId roomId room).1 !! r = rooms st !! r.
Proof.
  intros Hne. unfold cleanupRoom.
  destruct (scanSockets socketId (Room.users room) None false) as [[scanned found] flag].
  destruct found as [[user id]|]; cbn [fst].
  - case_decide; [by rewrite lookup_delete_ne | by rewrite lookup_insert_ne].
  - by rewrite lookup_insert_ne.
Qed.

Lemma disconnect_other_rooms st socketId r :
  guardRoom st (socketToRoomMap st !! socketId) = None
  ∨ socketToRoomMap st !! socketId ≠ Some r →
  rooms (disconnect st socketId).1 !! r = rooms st !! r.
Proof.
  intros Hcase. unfold disconnect.
  destruct (guardRoom st (socketToRoomMap st !! socketId)) as [[roomId room]|] eqn:Hg.
  - destruct Hcase as [?|Hne]; [done|].
    apply guardRoom_Some in Hg as (Hreg & _ & _).
    pose proof (cleanupRoom_other_rooms st socketId roomId room r) as Hc.
    destruct (cleanupRoom st socketId roomId room) as [rooms' out]. cbn [fst rooms] in *.
    apply Hc. congruence.
  - done.
Qed.

(** What an event other than the disconnect of a socket registered to the
    room does to a room: it stays, with at least the keys it had. *)
Lemma handle_keeps_members st ev roomId room :
  match ev with
  | Disconnect s =>
      guardRoom st (socketToRoomMap st !! s) = None
      ∨ socketToRoomMap st !! s ≠ Some roomId
  | _ => True
  end →
  rooms st !! roomId = Some room →
  ∃ room', rooms (handle st ev).1 !! roomId = Some room'
           ∧ JsMap.keys (Room.users room) ⊆ JsMap.keys (Room.users room').
Proof.
  intros Hev Hroom.
  destruct ev as [s c q|s u r|s pid|s c|s m now|s|s r]; cbn [handle].
  - by exists room.
  - destruct (joinRoom_cases st s u r) as [(room0 & _ & _ & ->)|Hadm]; [by exists room|].
    rewrite joinRoom_admitted by done. cbn [fst rooms].
    destruct (decide (r = roomId)) as [->|Hne].
    + rewrite lookup_insert_eq, Hroom. eexists. split; [done|].
      apply JsMap_keys_set_subseteq.
    + rewrite lookup_insert_ne by done. by exists room.
  - unfold peerIdHandler.
    destruct (guardRoom st (lookupRoomId st s)) as [[r room0]|] eqn:Hg; [|by exists room].
    apply guardRoom_Some in Hg as (_ & _ & Hroom0).
    destruct (JsMap.get s (Room.users room0)) as [user|] eqn:Hget; [|by exists room].
    cbn [fst setRooms rooms]. destruct (decide (r = roomId)) as [->|Hne].
    + rewrite lookup_insert_eq. eexists. split; [done|].
      assert (room0 = room) as -> by congruence. apply JsMap_keys_set_subseteq.
    + rewrite lookup_insert_ne by done. by exists room.
  - unfold codeChange.
    destruct (guardRoom st (lookupRoomId st s)) as [[r room0]|] eqn:Hg; [|by exists room].
    apply guardRoom_Some in Hg as (_ & _ & Hroom0).
    cbn [fst setRooms rooms]. destruct (decide (r = roomId)) as [->|Hne].
    + rewrite lookup_insert_eq. eexists. split; [done|].
      by assert (room0 = room) as -> by congruence.
    + rewrite lookup_insert_ne by done. by exists room.
  - unfold chatMessage.
    destruct (guardRoom st (lookupRoomId st s)) as [[r room0]|]; [|by exists room].
    destruct (JsMap.get s (Room.users room0)); by exists room.
  - rewrite disconnect_other_rooms by done. by exists room.
  - unfold requestUserList. destruct (guardRoom st (Some r)) as [[? ?]|]; by exists room.
Qed.

(** X12. Only a disconnect removes anything: after any other event every room
    is still there and every key of its member map is still a key. *)
Theorem members_only_removed_by_disconnect st ev roomId room :
  (∀ s, ev ≠ Disconnect s) →
  rooms st !! roomId = Some room →
  ∃ room', rooms (handle st ev).1 !! roomId = Some room'
           ∧ JsMap.keys (Room.users room) ⊆ JsMap.keys (Room.users room').
Proof.
  intros Hev. apply handle_keeps_members.
  destruct ev; try done. by destruct (Hev socketId).
Qed.

(** X13. The room whose key is the empty string is never deleted and never loses
    a member, whatever the event: the disconnect handler's guard takes the
    empty key for no room. *)
Theorem empty_key_room_is_permanent st ev room :
  rooms st !! EmptyString = Some room →
  ∃ room', rooms (handle st ev).1 !! EmptyString = Some room'
           ∧ JsMap.keys (Room.users room) ⊆ JsMap.keys (Room.users room').
Proof.
  apply handle_keeps_members. destruct ev; try done.
  destruct (socketToRoomMap st !! socketId) as [r|] eqn:Hreg; [|by left].
  destruct (decide (r = EmptyString)) as [->|Hne].
  - left. cbn [guardRoom]. by rewrite decide_True.
  - right. congruence.
Qed.

(** X14. A disconnect removes the socket from both registries and from
    socket.io, leaves the entries of every other socket, and leaves every
    room but the one the socket was registered to exactly as it was. *)
Theorem disconnect_frame st socketId :
  socketToClientMap (disconnect st socketId).1 !! socketId = None
  ∧ socketToRoomMap (disconnect st socketId).1 !! socketId = None
  ∧ socketRooms (disconnect st socketId).1 !! socketId = None
  ∧ (∀ s, s ≠ socketId →
          socketToClientMap (disconnect st socketId).1 !! s = socketToClientMap st !! s
          ∧ socketToRoomMap (disconnect st socketId).1 !! s = socketToRoomMap st !! s
          ∧ socketRooms (disconnect st socketId).1 !! s = socketRooms st !! s)
  ∧ (∀ r, socketToRoomMap st !! socketId ≠ Some r →
          rooms (disconnect st socketId).1 !! r = rooms st !! r).
Proof.
  split_and!.
  - unfold disconnect. destruct (match guardRoom _ _ with Some _ => _ | None => _ end).
    apply lookup_delete_eq.
  - unfold disconnect. destruct (match guardRoom _ _ with Some _ => _ | None => _ end).
    apply lookup_delete_eq.
  - unfold disconnect. destruct (match guardRoom _ _ with Some _ => _ | None => _ end).
    apply lookup_delete_eq.
  - intros s Hs. unfold disconnect.
    destruct (match guardRoom _ _ with Some _ => _ | None => _ end).
    cbn [fst socketToClientMap socketToRoomMap socketRooms].
    by rewrite !lookup_delete_ne.
  - intros r Hr. apply disconnect_other_rooms. by right.
Qed.

(** *** Disconnect in reachable states *)

Lemma JsMap_get_delete_ne {V} k k' (m : list (string * V)) :
  k' ≠ k → JsMap.get k' (JsMap.delete k m) = JsMap.get k' m.
Proof.
  intros Hne. induction m as [|[k0 v0] m IH]; cbn [JsMap.delete JsMap.get]; [done|].
  destruct (decide (k0 = k)) as [->|Hk]; cbn [JsMap.get].
  - by rewrite decide_False.
  - by rewrite IH.
Qed.

Lemma names_NoDup_delete k (m : list (string * User.t)) :
  NoDup (lowerName <$> JsMap.values m) →
  NoDup (lowerName <$> JsMap.values (JsMap.delete k m)).
Proof.
  intros Hnd. eapply sublist_NoDup; [exact Hnd|]. unfold JsMap.values.
  do 2 apply fmap_sublist. apply JsMap_delete_sublist.
Qed.

Lemma userListDisconnect_unique room :
  NoDup (lowerName <$> JsMap.values (Room.users room)) →
  userListDisconnect room = toEntry <$> JsMap.values (Room.users room).
Proof.
  intros Hnd. destruct (roomOk_lists room Hnd) as [Hd Ha]. by rewrite Hd, <- Ha.
Qed.

(** The [forEach] of the disconnect handler when the disconnected id is a
    key of a member map that satisfies the invariant: the user found is the
    record under that key. *)
Lemma scanSockets_member socketId users user found0 flag0 :
  (∀ k u, (k, u) ∈ users → User.sockets u = [k]) →
  NoDup (JsMap.keys users) →
  JsMap.get socketId users = Some user →
  ∃ scanned,
    scanSockets socketId users found0 flag0
    = (scanned, Some (User.setSockets [] user, socketId), true)
    ∧ JsMap.delete socketId scanned = JsMap.delete socketId users.
Proof.
  unfold JsMap.keys. revert found0 flag0.
  induction users as [|[k u] users IH]; intros found0 flag0 Hown Hnd Hget; [done|].
  rewrite fmap_cons in Hnd. cbn [fst] in Hnd. apply NoDup_cons in Hnd as [Hk Hnd].
  assert (Hu : User.sockets u = [k]) by (apply Hown; by left).
  assert (Hrest : ∀ k' u', (k', u') ∈ users → User.sockets u' = [k'])
    by (intros ? ? ?; apply Hown; by right).
  cbn [scanSockets JsMap.get] in *. rewrite Hu. cbn [indexOf].
  destruct (decide (k = socketId)) as [->|Hne].
  - injection Hget as ->.
    cbn [User.setSockets User.sockets splice1 take drop app length].
    rewrite decide_True by done.
    destruct (scanSockets_own socketId users
                (Some (User.setSockets [] user, socketId)) true Hrest)
      as (scanned & found & flag & Heq & Hdel & [(Hin & _)|(_ & -> & -> & ->)]);
      [done|].
    rewrite Heq. eexists. split; [done|]. cbn [JsMap.delete]. by rewrite !decide_True.
  - cbn [fmap option_fmap option_map].
    destruct (IH found0 flag0 Hrest Hnd Hget) as (scanned & -> & Hdel).
    eexists. split; [done|]. cbn [JsMap.delete]. rewrite !decide_False by done.
    by rewrite Hdel.
Qed.

(** X15. In a reachable state, the disconnect of a socket that is a key of the
    member map of the room it is registered to (non-empty key) removes
    that one record and keeps the others as they are and in order; the
    room hears [userLeft] with the name of the record and then the list of
    the members that remain; the room is deleted if none remains.  The
    socket itself receives neither event. *)
Theorem disconnect_member_leaves st socketId roomId room user :
  reachable st →
  socketToRoomMap st !! socketId = Some roomId →
  roomId ≠ EmptyString →
  rooms st !! roomId = Some room →
  JsMap.get socketId (Room.users room) = Some user →
  let rest := JsMap.delete socketId (Room.users room) in
  (disconnect st socketId).2
    = [mkEmit (ToRoom roomId) (UserLeft (User.username user));
       mkEmit (ToRoom roomId) (UserList (toEntry <$> JsMap.values rest))]
  ∧ rooms (disconnect st socketId).1 !! roomId
    = (if decide (JsMap.size rest = 0%nat) then None
       else Some (Room.mk rest (Room.code room)))
  ∧ JsMap.get socketId rest = None
  ∧ (∀ k, k ≠ socketId → JsMap.get k rest = JsMap.get k (Room.users room))
  ∧ (socketId ∉ recipients (socketRooms (disconnect st socketId).1) (ToRoom roomId)).
Proof.
  intros Hreach Hreg Hne Hroom Hget rest.
  pose proof (reachable_stateOk _ Hreach _ _ Hroom) as (_ & Hkeys & Hown & Hnames).
  destruct (scanSockets_member socketId (Room.users room) user None false)
    as (scanned & Hscan & Hdel);
    [intros k u Hin; by destruct (Hown _ _ Hin) | done | done |].
  assert (Hlist : userListDisconnect (Room.setUsers rest room)
                  = toEntry <$> JsMap.values rest).
  { apply (userListDisconnect_unique (Room.setUsers rest room)).
    by apply names_NoDup_delete. }
  assert (Hd : disconnect st socketId =
    (mkState (if decide (JsMap.size rest = 0%nat) then delete roomId (rooms st)
              else <[roomId := Room.setUsers rest room]> (rooms st))
             (delete socketId (socketToClientMap st))
             (delete socketId (socketToRoomMap st))
             (delete socketId (socketRooms st)),
     [mkEmit (ToRoom roomId) (UserLeft (User.username user));
      mkEmit (ToRoom roomId) (UserList (toEntry <$> JsMap.values rest))])).
  { unfold disconnect, guardRoom. rewrite Hreg, decide_False, Hroom by done.
    unfold cleanupRoom. rewrite Hscan. cbn [User.setSockets User.username].
    rewrite Hdel. fold rest. by rewrite Hlist. }
  rewrite Hd. cbn [fst snd rooms socketRooms]. split_and!.
  - done.
  - case_decide; [apply lookup_delete_eq | apply lookup_insert_eq].
  - destruct (JsMap.get socketId rest) as [v|] eqn:Hv; [|done].
    apply JsMap_get_Some, JsMap_elem_of_delete in Hv as [_ ?]. done.
  - intros k Hk. by apply JsMap_get_delete_ne.
  - cbn [recipients]. intros (rs & Hrs & _)%elem_of_subscribers.
    by rewrite lookup_delete_eq in Hrs.
Qed.

(** X16. In a reachable state, the disconnect of a socket that has no record in
    the room it is registered to (it never joined, was registered through
    its query only, or the room is gone) emits nothing and leaves every
    room as it was. *)
Theorem disconnect_non_member_silent st socketId :
  reachable st →
  (∀ roomId room,
     socketToRoomMap st !! socketId = Some roomId →
     rooms st !! roomId = Some room →
     JsMap.get socketId (Room.users room) = None) →
  (disconnect st socketId).2 = []
  ∧ rooms (disconnect st socketId).1 = rooms st.
Proof.
  intros Hreach Hnone. unfold disconnect.
  destruct (guardRoom st (socketToRoomMap st !! socketId)) as [[roomId room]|] eqn:Hg;
    [|done].
  apply guardRoom_Some in Hg as (Hreg & _ & Hroom).
  destruct (cleanupRoom_ok st socketId roomId room
              (reachable_stateOk _ Hreach _ _ Hroom)) as [[_ ->]|(user & Hin & _)].
  - cbn [fst snd rooms]. by rewrite insert_id.
  - apply JsMap_get_keys in Hin as [v Hv]. by rewrite (Hnone _ _ Hreg Hroom) in Hv.
Qed.

(** *** The requestUserList of server-helper.js *)

(** X17. In a reachable state the variant of server-helper.js sends the room
    the same list as the handler in server.js; unlike that handler it does
    not answer the requester directly and is silent for a room that does
    not exist (or has the empty key). *)
Theorem requestUserListHelper_agrees st socketId roomId :
  reachable st →
  (requestUserListHelper st socketId roomId).1 = st
  ∧ (∀ room,
       roomId ≠ EmptyString →
       rooms st !! roomId = Some room →
       (requestUserListHelper st socketId roomId).2
       = [mkEmit (ToRoom roomId)
            (UserList (toEntry <$> JsMap.values (Room.users room)))]
       ∧ (requestUserList st socketId roomId).2
         = mkEmit (ToSocket socketId)
             (UserList (toEntry <$> JsMap.values (Room.users room)))
           :: (requestUserListHelper st socketId roomId).2)
  ∧ (roomId = EmptyString ∨ rooms st !! roomId = None →
     (requestUserListHelper st socketId roomId).2 = []
     ∧ (requestUserList st socketId roomId).2
       = [mkEmit (ToSocket socketId) (UserList [])]).
Proof.
  intros Hreach. unfold requestUserListHelper, requestUserList, guardRoom. split_and!.
  - case_decide; [done|]. by destruct (rooms st !! roomId).
  - intros room Hne Hroom. rewrite decide_False, Hroom by done. cbn [snd].
    assert (Hl : userListDisconnect room = toEntry <$> JsMap.values (Room.users room)).
    { apply userListDisconnect_unique.
      by destruct (reachable_stateOk _ Hreach _ _ Hroom) as (_ & _ & _ & ?). }
    by rewrite Hl.
  - intros [->|Hnone]; [done|]. case_decide; [done|]. by rewrite Hnone.
Qed.

(** *** socket.io rooms, registry and member maps in reachable states *)

Lemma socketOk_transfer st st' s rs :
  socketOk st s rs →
  socketToRoomMap st' !! s = socketToRoomMap st !! s →
  (∀ r room, rooms st !! r = Some room → s ∈ JsMap.keys (Room.users room) →
             rs = [s; r] →
             ∃ room', rooms st' !! r = Some room' ∧ s ∈ JsMap.keys (Room.users room')) →
  socketOk st' s rs.
Proof.
  intros [->|(r & room & Hne & -> & Hreg & Hroom & Hin)] Hregs Hrooms; [by left|].
  destruct (Hrooms r room Hroom Hin eq_refl) as (room' & Hroom' & Hin').
  right. exists r, room'. split_and!; try done. by rewrite Hregs.
Qed.

(** Handlers that leave sockets and registries alone and keep every room
    with its keys keep the invariant. *)
Lemma linkOk_same_sockets st st' :
  linkOk st →
  socketToClientMap st' = socketToClientMap st →
  socketToRoomMap st' = socketToRoomMap st →
  socketRooms st' = socketRooms st →
  (∀ r room, rooms st !! r = Some room →
             ∃ room', rooms st' !! r = Some room'
                      ∧ JsMap.keys (Room.users room) ⊆ JsMap.keys (Room.users room')) →
  linkOk st'.
Proof.
  intros (Ha & Hb & Hc) Hclients Hregs Hsockets Hrooms. unfold linkOk.
  rewrite Hclients, Hregs, Hsockets. split_and!; [|done|done].
  intros s rs Hrs. apply (socketOk_transfer st); [by apply Ha | by rewrite Hregs |].
  intros r room Hroom Hin _. destruct (Hrooms r room Hroom) as (room' & ? & Hsub).
  exists room'. split; [done | by apply Hsub].
Qed.

Lemma leavePrevious_socketOk st s rs : socketOk st s rs → leavePrevious s rs = [s].
Proof.
  unfold leavePrevious. intros [->|(r & room & Hne & -> & _)].
  - cbn. by rewrite decide_True.
  - rewrite filter_cons_True by done. rewrite filter_cons_False by done. done.
Qed.

Lemma linkOk_connect st s c q :
  linkOk st → socketRooms st !! s = None → linkOk (connect st s c q).1.
Proof.
  intros (Ha & Hb & Hc) Hfresh. unfold connect.
  cbn [fst]. unfold linkOk. cbn [socketRooms socketToRoomMap socketToClientMap].
  split_and!.
  - intros s' rs. destruct (decide (s = s')) as [<-|Hne].
    + rewrite lookup_insert_eq. intros [= <-]. by left.
    + rewrite lookup_insert_ne by done. intros Hrs.
      apply (socketOk_transfer st); [by apply Ha | | by eauto].
      cbn [socketToRoomMap]. destruct (isTruthy c && isTruthy q); [|done].
      by rewrite lookup_insert_ne.
  - intros s' r. destruct (decide (s = s')) as [<-|Hne].
    + by rewrite lookup_insert_eq.
    + rewrite (lookup_insert_ne (socketRooms st)) by done.
      destruct (isTruthy c && isTruthy q); [rewrite lookup_insert_ne by done|]; apply Hb.
  - intros s' c'. destruct (decide (s = s')) as [<-|Hne].
    + by rewrite lookup_insert_eq.
    + rewrite (lookup_insert_ne (socketRooms st)) by done.
      destruct (isTruthy c); [rewrite lookup_insert_ne by done|]; apply Hc.
Qed.

Lemma linkOk_joinRoom st s u r :
  linkOk st → is_Some (socketRooms st !! s) → linkOk (joinRoom st s u r).1.
Proof.
  intros Hlink [rs Hrs]. pose proof Hlink as (Ha & Hb & Hc).
  pose proof (leavePrevious_socketOk st s rs (Ha _ _ Hrs)) as Hleft.
  destruct (joinRoom_cases st s u r) as [(room & _ & _ & ->)|Hadm].
  - cbn [fst]. unfold linkOk. cbn [socketRooms socketToRoomMap socketToClientMap].
    split_and!.
    + intros s' rs'. destruct (decide (s = s')) as [<-|Hne].
      * rewrite lookup_alter_eq, Hrs. cbn. rewrite Hleft. intros [= <-]. by left.
      * rewrite lookup_alter_ne by done. intros Hrs'.
        apply (socketOk_transfer st); [by apply Ha | done | by eauto].
    + intros s' r' Hreg. apply lookup_alter_is_Some. by eapply Hb.
    + intros s' c' Hcl. apply lookup_alter_is_Some. by eapply Hc.
  - pose proof (handle_keeps_members st (JoinRoom s u r)) as Hkeep.
    cbn [handle] in Hkeep. revert Hkeep.
    rewrite joinRoom_admitted by done. cbn [fst]. intros Hkeep.
    unfold linkOk. cbn [socketRooms socketToRoomMap socketToClientMap].
    split_and!.
    + intros s' rs'. destruct (decide (s = s')) as [<-|Hne].
      * rewrite !lookup_alter_eq, Hrs. cbn [fmap option_fmap option_map].
        rewrite Hleft. intros [= <-]. unfold joinSet.
        destruct (decide (r ∈ [s])) as [Hin|Hnin]; [by left|].
        right. eexists r, _. cbn [rooms socketToRoomMap].
        rewrite !lookup_insert_eq. split_and!; try done.
        -- intros ->. apply Hnin. by left.
        -- cbn [Room.setUsers Room.users]. apply JsMap_get_keys.
           rewrite JsMap_get_set. by eexists.
      * rewrite !lookup_alter_ne by done. intros Hrs'.
        apply (socketOk_transfer st); [by apply Ha | |].
        -- cbn [socketToRoomMap]. by rewrite lookup_insert_ne.
        -- intros r' room' Hroom' Hin _.
           destruct (Hkeep r' room' I Hroom') as (room'' & ? & Hsub).
           exists room''. split; [done | by apply Hsub].
    + intros s' r'. destruct (decide (s = s')) as [<-|Hne].
      * intros _. rewrite !lookup_alter_is_Some. by eexists.
      * rewrite lookup_insert_ne by done. intros Hreg.
        rewrite !lookup_alter_is_Some. by eapply Hb.
    + intros s' c' Hcl. rewrite !lookup_alter_is_Some. by eapply Hc.
Qed.

(** The state after a disconnect, and what it keeps of the other members of
    a room that satisfies the invariant. *)
Lemma disconnect_keeps_other_members st s :
  stateOk st →
  ∃ rooms',
    (disconnect st s).1
    = mkState rooms' (delete s (socketToClientMap st)) (delete s (socketToRoomMap st))
        (delete s (socketRooms st))
    ∧ (∀ s' r room, s' ≠ s → rooms st !! r = Some room →
                    s' ∈ JsMap.keys (Room.users room) →
                    ∃ room', rooms' !! r = Some room'
                             ∧ s' ∈ JsMap.keys (Room.users room')).
Proof.
  intros Hok. unfold disconnect.
  destruct (guardRoom st (socketToRoomMap st !! s)) as [[roomId room0]|] eqn:Hg.
  - apply guardRoom_Some in Hg as (_ & _ & Hroom0).
    destruct (cleanupRoom_ok st s roomId room0 (Hok _ _ Hroom0))
      as [[_ ->]|(user & _ & ->)]; eexists; (split; [done|]);
      intros s' r room Hne Hroom Hin.
    + rewrite insert_id by done. eauto.
    + destruct (decide (roomId = r)) as [->|Hr].
      * assert (room0 = room) as -> by congruence.
        assert (Hin' : s' ∈ JsMap.keys (JsMap.delete s (Room.users room))).
        { apply JsMap_get_keys. rewrite JsMap_get_delete_ne by done.
          by apply JsMap_get_keys. }
        rewrite decide_False.
        -- rewrite lookup_insert_eq. eexists. split; [done|]. exact Hin'.
        -- unfold JsMap.size. intros Hz. apply nil_length_inv in Hz.
           rewrite Hz in Hin'. by apply elem_of_nil in Hin'.
      * case_decide; [rewrite lookup_delete_ne by done | rewrite lookup_insert_ne by done];
          eauto.
  - eexists. split; [done|]. eauto.
Qed.

Lemma linkOk_disconnect st s :
  stateOk st → linkOk st → linkOk (disconnect st s).1.
Proof.
  intros Hok (Ha & Hb & Hc).
  destruct (disconnect_keeps_other_members st s Hok) as (rooms' & Hd & Hrooms).
  rewrite Hd. cbn [fst]. unfold linkOk.
  cbn [socketRooms socketToRoomMap socketToClientMap]. split_and!.
  - intros s' rs'. destruct (decide (s = s')) as [<-|Hne];
      [by rewrite lookup_delete_eq|].
    rewrite lookup_delete_ne by done. intros Hrs'.
    apply (socketOk_transfer st); [by apply Ha | |].
    + cbn [socketToRoomMap]. by rewrite lookup_delete_ne.
    + intros r room Hroom Hin _. cbn [rooms]. apply (Hrooms s' r room); [congruence | done | done].
  - intros s' r. destruct (decide (s = s')) as [<-|Hne];
      [by rewrite lookup_delete_eq|].
    rewrite !lookup_delete_ne by done. apply Hb.
  - intros s' c. destruct (decide (s = s')) as [<-|Hne];
      [by rewrite lookup_delete_eq|].
    rewrite !lookup_delete_ne by done. apply Hc.
Qed.

Lemma linkOk_handle st ev :
  stateOk st → linkOk st → enabled st ev → linkOk (handle st ev).1.
Proof.
  intros Hok Hlink Hen.
  destruct ev as [s c q|s u r|s pid|s c|s m now|s|s r]; cbn [handle enabled] in *.
  - by apply linkOk_connect.
  - by apply linkOk_joinRoom.
  - apply (linkOk_same_sockets st); try done.
    + unfold peerIdHandler. destruct (guardRoom _ _) as [[? room]|]; [|done].
      by destruct (JsMap.get s (Room.users room)).
    + unfold peerIdHandler. destruct (guardRoom _ _) as [[? room]|]; [|done].
      by destruct (JsMap.get s (Room.users room)).
    + unfold peerIdHandler. destruct (guardRoom _ _) as [[? room]|]; [|done].
      by destruct (JsMap.get s (Room.users room)).
    + intros r room. by apply (handle_keeps_members st (PeerId s pid)).
  - apply (linkOk_same_sockets st); try done.
    + unfold codeChange. by destruct (guardRoom _ _) as [[? room]|].
    + unfold codeChange. by destruct (guardRoom _ _) as [[? room]|].
    + unfold codeChange. by destruct (guardRoom _ _) as [[? room]|].
    + intros r room. by apply (handle_keeps_members st (CodeChangeEv s c)).
  - apply (linkOk_same_sockets st); try done.
    + unfold chatMessage. destruct (guardRoom _ _) as [[? room]|]; [|done].
      by destruct (JsMap.get s (Room.users room)).
    + unfold chatMessage. destruct (guardRoom _ _) as [[? room]|]; [|done].
      by destruct (JsMap.get s (Room.users room)).
    + unfold chatMessage. destruct (guardRoom _ _) as [[? room]|]; [|done].
      by destruct (JsMap.get s (Room.users room)).
    + intros r room. by apply (handle_keeps_members st (ChatMessageEv s m now)).
  - by apply linkOk_disconnect.
  - apply (linkOk_same_sockets st); try done.
    + unfold requestUserList. by destruct (guardRoom _ _) as [[? room]|].
    + unfold requestUserList. by destruct (guardRoom _ _) as [[? room]|].
    + unfold requestUserList. by destruct (guardRoom _ _) as [[? room]|].
    + intros r' room. by apply (handle_keeps_members st (RequestUserList s r)).
Qed.

Lemma reachable_linkOk st : reachable st → linkOk st.
Proof.
  induction 1 as [|st ev Hreach IH Hen].
  - unfold linkOk, initial. cbn [socketRooms socketToRoomMap socketToClientMap].
    split_and!; intros ? ?; by rewrite lookup_empty.
  - apply linkOk_handle; [by apply reachable_stateOk | done | done].
Qed.

(** X18. In every reachable state a socket that socket.io holds in a room other
    than its own is registered to that room and has a record in its member
    map: room broadcasts reach members only, except that a socket whose id
    is the room key is always reached. *)
Theorem reachable_subscribers_are_members st c roomId :
  reachable st →
  c ∈ subscribers (socketRooms st) roomId →
  roomId = c
  ∨ (socketToRoomMap st !! c = Some roomId
     ∧ ∃ room, rooms st !! roomId = Some room
               ∧ is_Some (JsMap.get c (Room.users room))).
Proof.
  intros Hreach (rs & Hrs & Hin)%elem_of_subscribers.
  destruct (reachable_linkOk _ Hreach) as (Ha & _).
  destruct (Ha _ _ Hrs) as [->|(r & room & Hne & -> & Hreg & Hroom & Hkey)].
  - apply list_elem_of_singleton in Hin. by left.
  - apply elem_of_cons in Hin as [->|Hin]; [by left|].
    apply list_elem_of_singleton in Hin as ->. right. split; [done|].
    exists room. split; [done|]. by apply JsMap_get_keys.
Qed.

Lemma reachable_second_room st s :
  reachable st →
  default [] (socketRooms st !! s) !! 1%nat = None
  ∨ default [] (socketRooms st !! s) !! 1%nat = socketToRoomMap st !! s.
Proof.
  intros Hreach. destruct (reachable_linkOk _ Hreach) as (Ha & _).
  destruct (socketRooms st !! s) as [rs|] eqn:Hrs; [|by left].
  destruct (Ha _ _ Hrs) as [->|(r & room & _ & -> & Hreg & _)]; [by left|].
  right. by rewrite Hreg.
Qed.

(** X19. In every reachable state the fallback [Array.from(socket.rooms)[1]] of
    the relay handlers never decides anything: the room they act on is the
    one the registry gives.  In particular a socket without registry entry
    gets no effect from peer-id, code-change or chat-message. *)
Theorem reachable_fallback_unused st socketId :
  reachable st →
  guardRoom st (lookupRoomId st socketId)
  = guardRoom st (socketToRoomMap st !! socketId)
  ∧ (socketToRoomMap st !! socketId = None →
     ∀ peerId code message now,
       peerIdHandler st socketId peerId = (st, [])
       ∧ codeChange st socketId code = (st, [])
       ∧ chatMessage st socketId message now = (st, [])).
Proof.
  intros Hreach.
  assert (Hg : guardRoom st (lookupRoomId st socketId)
               = guardRoom st (socketToRoomMap st !! socketId)).
  { unfold lookupRoomId.
    destruct (reachable_second_room st socketId Hreach) as [->| ->].
    - destruct (socketToRoomMap st !! socketId) as [r|]; [|done].
      case_decide as Hr; [|done]. subst. cbn [guardRoom]. by rewrite decide_True.
    - destruct (socketToRoomMap st !! socketId) as [r|]; [|done].
      by case_decide. }
  split; [done|]. intros Hnone peerId code message now.
  unfold peerIdHandler, codeChange, chatMessage. by rewrite Hg, Hnone.
Qed.

(** X20. In every reachable state both registries hold live sockets only: an
    entry is made when a socket connects or joins and is removed by its
    disconnect. *)
Theorem reachable_registries_hold_live_sockets st socketId :
  reachable st →
  (is_Some (socketToRoomMap st !! socketId) → is_Some (socketRooms st !! socketId))
  ∧ (is_Some (socketToClientMap st !! socketId) → is_Some (socketRooms st !! socketId)).
Proof.
  intros Hreach. destruct (reachable_linkOk _ Hreach) as (_ & Hb & Hc).
  split; intros [x Hx]; eauto.
Qed.

(** *** connection *)

(** X21. A new connection whose query carries a [clientId] and a [roomId] is
    entered in both registries, but it is not joined: the rooms map is as
    before and socket.io holds the socket in its own room only.  Without a
    [clientId] the [roomId] of the query is ignored and neither registry
    gets an entry. *)
Theorem connect_registers_without_joining st socketId clientId roomIdFromQuery :
  socketRooms st !! socketId = None →
  rooms (connect st socketId clientId roomIdFromQuery).1 = rooms st
  ∧ (∀ r, socketId ∈ subscribers
                       (socketRooms (connect st socketId clientId roomIdFromQuery).1) r
          ↔ r = socketId)
  ∧ (∀ c r, clientId = Some c → roomIdFromQuery = Some r →
            c ≠ EmptyString → r ≠ EmptyString →
            socketToClientMap (connect st socketId clientId roomIdFromQuery).1 !! socketId
            = Some c
            ∧ socketToRoomMap (connect st socketId clientId roomIdFromQuery).1 !! socketId
              = Some r)
  ∧ (isTruthy clientId = false →
     socketToClientMap (connect st socketId clientId roomIdFromQuery).1
     = socketToClientMap st
     ∧ socketToRoomMap (connect st socketId clientId roomIdFromQuery).1
       = socketToRoomMap st).
Proof.
  intros Hfresh. unfold connect.
  cbn [fst rooms socketRooms socketToClientMap socketToRoomMap]. split_and!.
  - done.
  - intros r. rewrite elem_of_subscribers. rewrite lookup_insert_eq. split.
    + intros (rs & [= <-] & Hin). by apply list_elem_of_singleton in Hin.
    + intros ->. eexists. split; [done | by left].
  - intros c r -> -> Hc Hr. cbn [isTruthy default from_option id].
    assert (Ht : ∀ x, x ≠ EmptyString → (x =? EmptyString)%string = false)
      by (intros x Hx; by apply String.eqb_neq).
    rewrite !Ht by done. cbn [negb andb]. by rewrite !lookup_insert_eq.
  - intros ->. done.
Qed.

(** ** The member list on every trigger, and what a disconnect emits *)







(** In a reachable state a live socket is in the socket.io room named by
    its own id, so what [socket.to(roomId)] leaves out is exactly that
    room. *)
Remark recipients_others_reachable st s roomId :
  reachable st →
  is_Some (socketRooms st !! s) →
  recipients (socketRooms st) (ToOthers s roomId)
  = subscribers (socketRooms st) roomId ∖ subscribers (socketRooms st) s.
Proof.
  intros Hreach [rs Hrs]. destruct (reachable_linkOk _ Hreach) as (Ha & _).
  assert (Hown : s ∈ subscribers (socketRooms st) s).
  { apply elem_of_subscribers. exists rs. split; [done|].
    destruct (Ha _ _ Hrs) as [->|(r & room & _ & -> & _)]; by left. }
  cbn [recipients]. apply set_eq. intros c.
  rewrite !elem_of_difference, elem_of_union, elem_of_singleton. split.
  - intros [? Hnot]. split; [done|]. intros ?. apply Hnot. by right.
  - intros [? Hnot]. split; [done|]. intros [->|?]; by apply Hnot.
Qed.

End Service.

(** ** The service on concrete traces

    The theorems above at explicit inputs, with [asciiLower] for
    [toLowerCase]. *)

(** A rejected join: "a" is in room "r1" as "alice", "b" asks to join as
    "ALICE". *)
Lemma joinRoom_name_taken_rejected_witness :
  let st := run asciiLower initial
              [Connect "a" None None; JoinRoom "a" "alice" "r1"; Connect "b" None None] in
  let room := Room.mk [("a", User.mk "a" "alice" None ["a"])] EmptyString in
  rooms st !! "r1" = Some room
  ∧ (joinRoom asciiLower st "b" "ALICE" "r1").2
    = [mkEmit (ToSocket "b") (JoinRejected "username_taken" (rejectMessage "ALICE"))]
  ∧ rooms (joinRoom asciiLower st "b" "ALICE" "r1").1 = rooms st.
Proof.
  intros st room.
  assert (Hroom : rooms st !! "r1" = Some room) by (vm_compute; reflexivity).
  destruct (joinRoom_name_taken_rejected asciiLower st "b" "ALICE" "r1" room
              (User.mk "a" "alice" None ["a"]))
    as (Hout & _ & Hrooms & _).
  - exact Hroom.
  - by left.
  - done.
  - vm_compute; reflexivity.
  - split_and!; assumption.
Defined.

(** C7 at: "a" creates room "r1"; and, after "a" wrote "x=1", "b" joins. *)
Lemma joinRoom_creates_room_and_catches_up_witness :
  let st0 := run asciiLower initial [Connect "a" None None] in
  let st := run asciiLower initial
              [Connect "a" None None; JoinRoom "a" "bob" "r1";
               CodeChangeEv "a" "x=1"; Connect "b" None None] in
  rooms st0 !! "r1" = None
  ∧ rooms (joinRoom asciiLower st0 "a" "bob" "r1").1 !! "r1"
    = Some (Room.mk [("a", User.mk "a" "bob" None ["a"])] EmptyString)
  ∧ mkEmit (ToSocket "b") (JoinedRoom "r1" 2 (joinedMessage "carol" "r1"))
      ∈ (joinRoom asciiLower st "b" "carol" "r1").2
  ∧ mkEmit (ToSocket "b") (CodeChange "x=1")
      ∈ (joinRoom asciiLower st "b" "carol" "r1").2.
Proof.
  intros st0 st.
  assert (Hnone : rooms st0 !! "r1" = None) by (vm_compute; reflexivity).
  assert (Hjoined : mkEmit (ToSocket "b") (JoinedRoom "r1" 2 (joinedMessage "carol" "r1"))
                      ∈ (joinRoom asciiLower st "b" "carol" "r1").2).
  { vm_compute. do 3 right. left. }
  destruct (joinRoom_creates_room_and_catches_up asciiLower st0 "a" "bob" "r1")
    as [Hnew _].
  destruct (Hnew Hnone) as [Hcreated _].
  destruct (joinRoom_creates_room_and_catches_up asciiLower st "b" "carol" "r1")
    as [_ Hcatch].
  destruct (Hcatch _ _ Hjoined) as (_ & _ & Hsent & _).
  split_and!; [exact Hnone | exact Hcreated | exact Hjoined | exact Hsent].
Defined.

(** Closes a goal about a concrete trace by running the service. *)
Ltac by_running :=
  first [ vm_compute; reflexivity
        | vm_compute; discriminate
        | apply reachable_run; [constructor | vm_compute; reflexivity] ].

(** C2 as stated fails in three ways.  (1) For the room whose key is the
    empty string, which "s1" and "s2" have joined, an edit by "s1" changes
    nothing and is sent to nobody.  (2) "b" is in the member map of "r1"
    and registered to it, but its rejected join of "r2" took it out of the
    socket.io room: an edit by "a" overwrites the buffer and does not reach
    "b".  (3) The room key "a" is the socket id of the sender: "b" is in
    the member map, registered and in the socket.io room, and an edit by
    "a" does not reach it. *)
Lemma codeChange_not_forwarded :
  let st1 := run asciiLower initial
               [Connect "s1" None None; JoinRoom "s1" "alice" EmptyString;
                Connect "s2" None None; JoinRoom "s2" "bob" EmptyString] in
  let st2 := run asciiLower initial
               [Connect "a" None None; JoinRoom "a" "alice" "r1";
                Connect "b" None None; JoinRoom "b" "bob" "r1";
                Connect "c" None None; JoinRoom "c" "carol" "r2";
                JoinRoom "b" "Carol" "r2"] in
  let st3 := run asciiLower initial
               [Connect "a" None None; Connect "b" None None;
                JoinRoom "b" "bob" "a"; JoinRoom "a" "alice" "a"] in
  (reachable asciiLower st1
   ∧ socketToRoomMap st1 !! "s1" = Some EmptyString
   ∧ Room.code <$> rooms st1 !! EmptyString = Some EmptyString
   ∧ "s2" ∈ subscribers (socketRooms st1) EmptyString
   ∧ codeChange st1 "s1" "x=1" = (st1, [])
   ∧ Room.code <$> rooms (codeChange st1 "s1" "x=1").1 !! EmptyString ≠ Some "x=1")
  ∧ (reachable asciiLower st2
     ∧ socketToRoomMap st2 !! "a" = Some "r1"
     ∧ socketToRoomMap st2 !! "b" = Some "r1"
     ∧ (JsMap.keys ∘ Room.users) <$> rooms st2 !! "r1" = Some ["a"; "b"]
     ∧ (codeChange st2 "a" "x=1").2 = [mkEmit (ToOthers "a" "r1") (CodeChange "x=1")]
     ∧ "b" ∉ recipients (socketRooms (codeChange st2 "a" "x=1").1) (ToOthers "a" "r1"))
  ∧ (reachable asciiLower st3
     ∧ socketToRoomMap st3 !! "a" = Some "a"
     ∧ socketToRoomMap st3 !! "b" = Some "a"
     ∧ (JsMap.keys ∘ Room.users) <$> rooms st3 !! "a" = Some ["b"; "a"]
     ∧ "b" ∈ subscribers (socketRooms st3) "a"
     ∧ (codeChange st3 "a" "x=1").2 = [mkEmit (ToOthers "a" "a") (CodeChange "x=1")]
     ∧ "b" ∉ recipients (socketRooms (codeChange st3 "a" "x=1").1) (ToOthers "a" "a")).
Proof.
  intros st1 st2 st3. split_and!; by_running.
Qed.

(** C2 (amended) at: "a" and "b" are in room "r1", "a" edits. *)
Lemma codeChange_overwrites_and_forwards_witness :
  let st := run asciiLower initial
              [Connect "a" None None; JoinRoom "a" "bob" "r1";
               Connect "b" None None; JoinRoom "b" "carol" "r1"] in
  socketToRoomMap st !! "a" = Some "r1"
  ∧ "r1" ≠ EmptyString
  ∧ (codeChange st "a" "x=1").2 = [mkEmit (ToOthers "a" "r1") (CodeChange "x=1")]
  ∧ Room.code <$> rooms (codeChange st "a" "x=1").1 !! "r1" = Some "x=1"
  ∧ "b" ∈ recipients (socketRooms (codeChange st "a" "x=1").1) (ToOthers "a" "r1")
  ∧ Room.code <$>
      rooms (codeChange (codeChange st "a" "x=1").1 "b" "y=2").1 !! "r1" = Some "y=2".
Proof.
  intros st.
  assert (Hreg : socketToRoomMap st !! "a" = Some "r1") by (vm_compute; reflexivity).
  assert (Hne : "r1" ≠ EmptyString) by done.
  destruct (codeChange_overwrites_and_forwards st "a" "r1"
              (Room.mk [("a", User.mk "a" "bob" None ["a"]);
                        ("b", User.mk "b" "carol" None ["b"])] EmptyString)
              "x=1" Hreg Hne)
    as (Heq & Hcode & _ & Hrec & Hlast); [vm_compute; reflexivity|].
  split_and!; [exact Hreg | exact Hne | by rewrite Heq | exact Hcode | |].
  - apply Hrec. split; [done|]. exists ["b"; "r1"].
    split_and!; [vm_compute; reflexivity | by right; left |].
    intros [?|Hin]%elem_of_cons; [done|].
    apply list_elem_of_singleton in Hin. discriminate.
  - apply Hlast. vm_compute; reflexivity.
Defined.

(** C8 as stated fails in three ways, in the same three states as for the
    edits.  (1) In the room whose key is the empty
    string the message of "s1" is sent to nobody.  (2) "b", in the member
    map of "r1" and registered to it, has left the socket.io room through
    its rejected join of "r2": the message of "a" does not reach it.
    (3) The room key "a" is the socket id of the sender: the message of "a"
    does not reach "b", which is in the room. *)
Lemma chatMessage_not_forwarded :
  let st1 := run asciiLower initial
               [Connect "s1" None None; JoinRoom "s1" "alice" EmptyString;
                Connect "s2" None None; JoinRoom "s2" "bob" EmptyString] in
  let st2 := run asciiLower initial
               [Connect "a" None None; JoinRoom "a" "alice" "r1";
                Connect "b" None None; JoinRoom "b" "bob" "r1";
                Connect "c" None None; JoinRoom "c" "carol" "r2";
                JoinRoom "b" "Carol" "r2"] in
  let st3 := run asciiLower initial
               [Connect "a" None None; Connect "b" None None;
                JoinRoom "b" "bob" "a"; JoinRoom "a" "alice" "a"] in
  let message : gmap string JsVal := {[ "text" := JStr "hi" ]} in
  let now := "2025-01-01T00:00:00.000Z" in
  let sent := stamp message "alice" "a" now in
  (reachable asciiLower st1
   ∧ socketToRoomMap st1 !! "s1" = Some EmptyString
   ∧ (∃ room, rooms st1 !! EmptyString = Some room
              ∧ is_Some (JsMap.get "s1" (Room.users room)))
   ∧ "s2" ∈ subscribers (socketRooms st1) EmptyString
   ∧ chatMessage st1 "s1" message now = (st1, []))
  ∧ (reachable asciiLower st2
     ∧ socketToRoomMap st2 !! "a" = Some "r1"
     ∧ socketToRoomMap st2 !! "b" = Some "r1"
     ∧ (JsMap.keys ∘ Room.users) <$> rooms st2 !! "r1" = Some ["a"; "b"]
     ∧ (chatMessage st2 "a" message now).2
       = [mkEmit (ToOthers "a" "r1") (ChatMessage sent)]
     ∧ "b" ∉ recipients (socketRooms st2) (ToOthers "a" "r1"))
  ∧ (reachable asciiLower st3
     ∧ socketToRoomMap st3 !! "a" = Some "a"
     ∧ socketToRoomMap st3 !! "b" = Some "a"
     ∧ (JsMap.keys ∘ Room.users) <$> rooms st3 !! "a" = Some ["b"; "a"]
     ∧ "b" ∈ subscribers (socketRooms st3) "a"
     ∧ (chatMessage st3 "a" message now).2
       = [mkEmit (ToOthers "a" "a") (ChatMessage sent)]
     ∧ "b" ∉ recipients (socketRooms st3) (ToOthers "a" "a")).
Proof.
  intros st1 st2 st3 message now sent. split_and!;
    first [ by_running | eexists; split; [vm_compute; reflexivity | by eexists] ].
Qed.

(** C8 (amended) at: "a" (bob) and "b" are in "r1"; "a" sends a message that
    claims to come from "mallory". *)
Lemma chatMessage_stamped_and_forwarded_witness :
  let st := run asciiLower initial
              [Connect "a" None None; JoinRoom "a" "bob" "r1";
               Connect "b" None None; JoinRoom "b" "carol" "r1"] in
  let message : gmap string JsVal :=
    <["sender" := JStr "mallory"]> {[ "text" := JStr "hi" ]} in
  let sent := stamp message "bob" "a" "2025-01-01T00:00:00.000Z" in
  socketToRoomMap st !! "a" = Some "r1"
  ∧ "r1" ≠ EmptyString
  ∧ chatMessage st "a" message "2025-01-01T00:00:00.000Z"
    = (st, [mkEmit (ToOthers "a" "r1") (ChatMessage sent)])
  ∧ sent !! "sender" = Some (JStr "a")
  ∧ sent !! "username" = Some (JStr "bob")
  ∧ "b" ∈ recipients (socketRooms st) (ToOthers "a" "r1").
Proof.
  intros st message sent.
  assert (Hreg : socketToRoomMap st !! "a" = Some "r1") by (vm_compute; reflexivity).
  assert (Hne : "r1" ≠ EmptyString) by done.
  destruct (chatMessage_stamped_and_forwarded st "a" "r1"
              (Room.mk [("a", User.mk "a" "bob" None ["a"]);
                        ("b", User.mk "b" "carol" None ["b"])] EmptyString)
              (User.mk "a" "bob" None ["a"]) message "2025-01-01T00:00:00.000Z" Hreg Hne)
    as (Heq & Hname & Hsender & _ & _ & Hrec);
    [vm_compute; reflexivity | vm_compute; reflexivity |].
  split_and!; [exact Hreg | exact Hne | exact Heq | exact Hsender | exact Hname |].
  apply Hrec. split; [done|]. exists ["b"; "r1"].
  split_and!; [vm_compute; reflexivity | by right; left |].
  intros [?|Hin]%elem_of_cons; [done|].
  apply list_elem_of_singleton in Hin. discriminate.
Defined.

(** C9 at: "a" and "b" are the members of "r1" and "a" has disconnected.
    A further disconnect of "a" finds it in neither registry, leaves the
    room with "b" and the registries as they are and emits nothing; and the
    second of two disconnects of "a" from the state before changes
    nothing. *)
Lemma disconnect_idempotent_witness :
  let before := run asciiLower initial
                  [Connect "a" (Some "tab-1") (Some "r1"); JoinRoom "a" "bob" "r1";
                   Connect "b" None None; JoinRoom "b" "carol" "r1"] in
  let st := run asciiLower before [Disconnect "a"] in
  socketToClientMap before !! "a" = Some "tab-1"
  ∧ socketToRoomMap before !! "a" = Some "r1"
  ∧ (disconnect before "a").2
    = [mkEmit (ToRoom "r1") (UserLeft "bob");
       mkEmit (ToRoom "r1") (UserList [mkEntry "b" "carol" None])]
  ∧ rooms st !! "r1"
    = Some (Room.mk [("b", User.mk "b" "carol" None ["b"])] EmptyString)
  ∧ socketToClientMap st !! "a" = None
  ∧ socketToRoomMap st !! "a" = None
  ∧ rooms (disconnect st "a").1 = rooms st
  ∧ socketToClientMap (disconnect st "a").1 = socketToClientMap st
  ∧ socketToRoomMap (disconnect st "a").1 = socketToRoomMap st
  ∧ (disconnect st "a").2 = []
  ∧ disconnect (disconnect before "a").1 "a" = ((disconnect before "a").1, []).
Proof.
  intros before st.
  assert (Hclient : socketToClientMap st !! "a" = None) by (vm_compute; reflexivity).
  assert (Hreg : socketToRoomMap st !! "a" = None) by (vm_compute; reflexivity).
  destruct (disconnect_idempotent st "a") as [Habsent _].
  destruct (Habsent Hclient Hreg) as (Hrooms & Hclients & Hregs & Hout).
  destruct (disconnect_idempotent before "a") as [_ Htwice].
  split_and!;
    [by_running | by_running | by_running | by_running | exact Hclient | exact Hreg
    | exact Hrooms | exact Hclients | exact Hregs | exact Hout | exact Htwice].
Defined.

(** C3 at: "a" alone in "r1". *)
Lemma reachable_rooms_have_members_witness :
  let st := run asciiLower initial [Connect "a" None None; JoinRoom "a" "alice" "r1"] in
  let room := Room.mk [("a", User.mk "a" "alice" None ["a"])] EmptyString in
  reachable asciiLower st
  ∧ rooms st !! "r1" = Some room
  ∧ Room.users room ≠ []
  ∧ rooms (disconnect st "a").1 !! "r1" = None.
Proof.
  intros st room.
  assert (Hreach : reachable asciiLower st)
    by (apply reachable_run; [constructor | vm_compute; reflexivity]).
  assert (Hroom : rooms st !! "r1" = Some room) by (vm_compute; reflexivity).
  destruct (reachable_rooms_have_members asciiLower st "r1" room Hreach Hroom)
    as (Hne & _ & _ & Hdel).
  split_and!; [exact Hreach | exact Hroom | exact Hne |].
  apply Hdel; [vm_compute; reflexivity | done | reflexivity].
Defined.

(** C10 at: "a" and "b" in "r1". *)
Lemma reachable_records_hold_own_socket_witness :
  let st := run asciiLower initial
              [Connect "a" None None; JoinRoom "a" "bob" "r1";
               Connect "b" None None; JoinRoom "b" "carol" "r1"] in
  let room := Room.mk [("a", User.mk "a" "bob" None ["a"]);
                       ("b", User.mk "b" "carol" None ["b"])] EmptyString in
  reachable asciiLower st
  ∧ rooms st !! "r1" = Some room
  ∧ (∀ k u, (k, u) ∈ Room.users room → User.id u = k ∧ User.sockets u = [k]).
Proof.
  intros st room.
  assert (Hreach : reachable asciiLower st)
    by (apply reachable_run; [constructor | vm_compute; reflexivity]).
  assert (Hroom : rooms st !! "r1" = Some room) by (vm_compute; reflexivity).
  destruct (reachable_records_hold_own_socket asciiLower st "r1" room Hreach Hroom)
    as (Hown & _).
  split_and!; [exact Hreach | exact Hroom | exact Hown].
Defined.



(** C1 fails on the code.  "b" is a member of "r1"; its joinRoom for "r2"
    under the name "carol" holds there is rejected.  The rooms map and the
    registry are as before, but the state is not: the socket has left the
    socket.io room "r1" (the previous rooms are left before the name is
    checked).  It is still registered to "r1" and in its member map, and no
    longer receives the edits made there. *)
Theorem rejected_join_leaves_previous_room :
  let before := run asciiLower initial
                  [Connect "a" None None; JoinRoom "a" "alice" "r1";
                   Connect "b" None None; JoinRoom "b" "bob" "r1";
                   Connect "c" None None; JoinRoom "c" "carol" "r2"] in
  let after := (joinRoom asciiLower before "b" "Carol" "r2").1 in
  reachable asciiLower before
  ∧ rooms before !! "r2"
    = Some (Room.mk [("c", User.mk "c" "carol" None ["c"])] EmptyString)
  ∧ (joinRoom asciiLower before "b" "Carol" "r2").2
    = [mkEmit (ToSocket "b") (JoinRejected "username_taken" (rejectMessage "Carol"))]
  ∧ rooms after = rooms before
  ∧ socketToRoomMap after = socketToRoomMap before
  ∧ socketRooms before !! "b" = Some ["b"; "r1"]
  ∧ socketRooms after !! "b" = Some ["b"]
  ∧ after ≠ before
  ∧ socketToRoomMap after !! "b" = Some "r1"
  ∧ (JsMap.keys ∘ Room.users) <$> rooms after !! "r1" = Some ["a"; "b"]
  ∧ "b" ∈ recipients (socketRooms (codeChange before "a" "x=1").1) (ToOthers "a" "r1")
  ∧ "b" ∉ recipients (socketRooms (codeChange after "a" "x=1").1) (ToOthers "a" "r1").
Proof.
  intros before after. split_and!; by_running.
Qed.

(** C6 fails on the code: a socket that joins "r1" and then "r2" is left in
    the member map of "r1" as well, registered to "r2" only; its disconnect
    cleans "r2" and leaves the record in "r1", which then holds the name
    against every later join. *)
Theorem rejoin_leaves_stale_member :
  let st := run asciiLower initial
              [Connect "s1" None None; JoinRoom "s1" "alice" "r1";
               JoinRoom "s1" "alice" "r2"] in
  let st' := run asciiLower st [Disconnect "s1"; Connect "s2" None None] in
  let record := User.mk "s1" "alice" None ["s1"] in
  reachable asciiLower st
  ∧ rooms st !! "r1" = Some (Room.mk [("s1", record)] EmptyString)
  ∧ rooms st !! "r2" = Some (Room.mk [("s1", record)] EmptyString)
  ∧ socketToRoomMap st !! "s1" = Some "r2"
  ∧ socketRooms st !! "s1" = Some ["s1"; "r2"]
  ∧ reachable asciiLower st'
  ∧ socketRooms st' !! "s1" = None
  ∧ rooms st' !! "r1" = Some (Room.mk [("s1", record)] EmptyString)
  ∧ rooms st' !! "r2" = None
  ∧ (joinRoom asciiLower st' "s2" "alice" "r1").2
    = [mkEmit (ToSocket "s2") (JoinRejected "username_taken" (rejectMessage "alice"))].
Proof.
  intros st st' record. split_and!; try (vm_compute; reflexivity).
  - apply reachable_run; [constructor | vm_compute; reflexivity].
  - apply reachable_run; [|vm_compute; reflexivity].
    apply reachable_run; [constructor | vm_compute; reflexivity].
Qed.

(** ** Scenarios of the specification, run on the model *)

(** "alice" joins "r1" from A; the same name from B is rejected; A
    disconnects and the room is deleted after an empty member list was
    emitted; then "alice" from C is admitted. *)
Example scenario_name_reuse :
  let afterA := run asciiLower initial
                  [Connect "A" None None; JoinRoom "A" "alice" "r1";
                   Connect "B" None None] in
  let afterB := (joinRoom asciiLower afterA "B" "alice" "r1").1 in
  let gone := (disconnect afterB "A").1 in
  let afterC := run asciiLower gone [Connect "C" None None; JoinRoom "C" "alice" "r1"] in
  (joinRoom asciiLower afterA "B" "alice" "r1").2
    = [mkEmit (ToSocket "B") (JoinRejected "username_taken" (rejectMessage "alice"))]
  ∧ (disconnect afterB "A").2
    = [mkEmit (ToRoom "r1") (UserLeft "alice"); mkEmit (ToRoom "r1") (UserList [])]
  ∧ rooms gone !! "r1" = None
  ∧ rooms afterC !! "r1"
    = Some (Room.mk [("C", User.mk "C" "alice" None ["C"])] EmptyString).
Proof. split_and!; vm_compute; reflexivity. Qed.

(** "bob" writes "x=1" in "r1"; "carol" joins and is sent "x=1" at once. *)
Example scenario_catch_up :
  let st := run asciiLower initial
              [Connect "A" None None; JoinRoom "A" "bob" "r1";
               CodeChangeEv "A" "x=1"; Connect "B" None None] in
  head (joinRoom asciiLower st "B" "carol" "r1").2
  = Some (mkEmit (ToSocket "B") (CodeChange "x=1")).
Proof. vm_compute; reflexivity. Qed.

(** "b" is a member of "r1" and asks to join "r2" under a name that is taken
    there: the join is rejected, "b" stays in the member map of "r1" and
    registered to it, but has left the socket.io room, so an edit by "a"
    has no recipient. *)
Example scenario_rejected_join_unsubscribes :
  let st := run asciiLower initial
              [Connect "a" None None; JoinRoom "a" "alice" "r1";
               Connect "b" None None; JoinRoom "b" "bob" "r1";
               Connect "c" None None; JoinRoom "c" "carol" "r2";
               JoinRoom "b" "Carol" "r2"] in
  socketToRoomMap st !! "b" = Some "r1"
  ∧ (JsMap.keys ∘ Room.users) <$> rooms st !! "r1" = Some ["a"; "b"]
  ∧ socketRooms st !! "b" = Some ["b"]
  ∧ (codeChange st "a" "x=1").2 = [mkEmit (ToOthers "a" "r1") (CodeChange "x=1")]
  ∧ elements (recipients (socketRooms (codeChange st "a" "x=1").1) (ToOthers "a" "r1")) = [].
Proof. split_and!; vm_compute; reflexivity. Qed.

(** ** The further properties at explicit inputs

    In all of them "a" (bob) and "b" (carol) are the members of "r1" unless
    said otherwise. *)

Lemma checkUsername_answer_witness :
  let st := run asciiLower initial
              [Connect "a" None None; JoinRoom "a" "bob" "r1";
               Connect "b" None None; JoinRoom "b" "carol" "r1"] in
  isTruthy None = false
  ∧ checkUsername asciiLower st None (Some "r1")
    = Status400 "Username and roomId are required"
  ∧ checkUsername asciiLower st (Some "BOB") (Some "r1") = Json false.
Proof.
  intros st.
  destruct (checkUsername_answer asciiLower st None (Some "r1")) as [H400 _].
  destruct (checkUsername_answer asciiLower st (Some "BOB") (Some "r1")) as [_ Hjson].
  destruct (Hjson "BOB" "r1" eq_refl eq_refl) as (available & Heq & Htaken);
    [done | done |].
  split_and!; [done | apply H400; by left |].
  rewrite Heq. f_equal. apply Htaken.
  exists (Room.mk [("a", User.mk "a" "bob" None ["a"]);
                   ("b", User.mk "b" "carol" None ["b"])] EmptyString),
         (User.mk "a" "bob" None ["a"]).
  split_and!; [vm_compute; reflexivity | by left | vm_compute; reflexivity].
Defined.

Lemma checkUsername_available_join_admitted_witness :
  let st := run asciiLower initial
              [Connect "a" None None; JoinRoom "a" "bob" "r1";
               Connect "b" None None; JoinRoom "b" "carol" "r1";
               Connect "c" None None] in
  checkUsername asciiLower st (Some "dave") (Some "r1") = Json true
  ∧ mkEmit (ToSocket "c") (JoinedRoom "r1" 3 (joinedMessage "dave" "r1"))
    ∈ (joinRoom asciiLower st "c" "dave" "r1").2.
Proof.
  intros st.
  assert (Hcheck : checkUsername asciiLower st (Some "dave") (Some "r1") = Json true)
    by (vm_compute; reflexivity).
  split; [exact Hcheck|].
  pose proof (checkUsername_available_join_admitted asciiLower st "dave" "r1" "c" Hcheck)
    as Hjoined.
  vm_compute in Hjoined. vm_compute. exact Hjoined.
Defined.

Lemma reachable_names_unique_witness :
  let st := run asciiLower initial
              [Connect "a" None None; JoinRoom "a" "bob" "r1";
               Connect "b" None None; JoinRoom "b" "carol" "r1"] in
  let room := Room.mk [("a", User.mk "a" "bob" None ["a"]);
                       ("b", User.mk "b" "carol" None ["b"])] EmptyString in
  reachable asciiLower st
  ∧ rooms st !! "r1" = Some room
  ∧ (∀ k u, (k, u) ∈ Room.users room →
            asciiLower (User.username u) = asciiLower "CAROL" → k = "b").
Proof.
  intros st room.
  assert (Hreach : reachable asciiLower st)
    by (apply reachable_run; [constructor | vm_compute; reflexivity]).
  assert (Hroom : rooms st !! "r1" = Some room) by (vm_compute; reflexivity).
  split_and!; [exact Hreach | exact Hroom |].
  intros k u Hin Hname.
  destruct (reachable_names_unique asciiLower st "r1" room k u "b"
              (User.mk "b" "carol" None ["b"]) Hreach Hroom Hin) as [Hk _].
  - right. by left.
  - exact Hname.
  - exact Hk.
Defined.

Lemma checkUsername_refuses_own_name_witness :
  let st := run asciiLower initial
              [Connect "a" None None; JoinRoom "a" "bob" "r1";
               Connect "b" None None; JoinRoom "b" "carol" "r1"] in
  reachable asciiLower st
  ∧ checkUsername asciiLower st (Some "Bob") (Some "r1") = Json false
  ∧ mkEmit (ToSocket "a") (JoinedRoom "r1" 2 (joinedMessage "Bob" "r1"))
    ∈ (joinRoom asciiLower st "a" "Bob" "r1").2.
Proof.
  intros st.
  assert (Hreach : reachable asciiLower st)
    by (apply reachable_run; [constructor | vm_compute; reflexivity]).
  destruct (checkUsername_refuses_own_name asciiLower st "r1"
              (Room.mk [("a", User.mk "a" "bob" None ["a"]);
                        ("b", User.mk "b" "carol" None ["b"])] EmptyString)
              "a" (User.mk "a" "bob" None ["a"]) "Bob" Hreach)
    as [Hcheck Hjoined];
    [vm_compute; reflexivity | vm_compute; reflexivity | vm_compute; reflexivity
    | done | done |].
  split_and!; [exact Hreach | exact Hcheck | exact Hjoined].
Defined.

Lemma rejected_socket_still_edits_witness :
  let st := run asciiLower initial [Connect "a" None None; JoinRoom "a" "bob" "r1"] in
  let st1 := (connect st "b" (Some "tab-1") (Some "r1")).1 in
  let st2 := (joinRoom asciiLower st1 "b" "BOB" "r1").1 in
  rooms st !! "r1" = Some (Room.mk [("a", User.mk "a" "bob" None ["a"])] EmptyString)
  ∧ (joinRoom asciiLower st1 "b" "BOB" "r1").2
    = [mkEmit (ToSocket "b") (JoinRejected "username_taken" (rejectMessage "BOB"))]
  ∧ rooms (codeChange st2 "b" "x=1").1 !! "r1"
    = Some (Room.mk [("a", User.mk "a" "bob" None ["a"])] "x=1")
  ∧ chatMessage st2 "b" {[ "text" := JStr "hi" ]} "2025-01-01T00:00:00.000Z" = (st2, []).
Proof.
  intros st st1 st2.
  assert (Hroom : rooms st !! "r1"
                  = Some (Room.mk [("a", User.mk "a" "bob" None ["a"])] EmptyString))
    by (vm_compute; reflexivity).
  destruct (rejected_socket_still_edits asciiLower st "b" "tab-1" "r1"
              (Room.mk [("a", User.mk "a" "bob" None ["a"])] EmptyString)
              (User.mk "a" "bob" None ["a"]) "BOB" "x=1")
    as (Hrej & _ & Hcode & Hchat);
    [done | done | exact Hroom | by left | done | vm_compute; reflexivity |].
  split_and!; [exact Hroom | exact Hrej | exact Hcode | by apply Hchat].
Defined.

Lemma peerId_sets_own_record_witness :
  let st := run asciiLower initial
              [Connect "a" None None; JoinRoom "a" "bob" "r1";
               Connect "b" None None; JoinRoom "b" "carol" "r1"] in
  socketToRoomMap st !! "a" = Some "r1"
  ∧ ∃ room', rooms (peerIdHandler st "a" "peer-7").1 !! "r1" = Some room'
             ∧ JsMap.get "a" (Room.users room')
               = Some (User.mk "a" "bob" (Some "peer-7") ["a"])
             ∧ JsMap.get "b" (Room.users room')
               = Some (User.mk "b" "carol" None ["b"]).
Proof.
  intros st.
  assert (Hreg : socketToRoomMap st !! "a" = Some "r1") by (vm_compute; reflexivity).
  split; [exact Hreg|].
  destruct (peerId_sets_own_record st "a" "r1"
              (Room.mk [("a", User.mk "a" "bob" None ["a"]);
                        ("b", User.mk "b" "carol" None ["b"])] EmptyString)
              (User.mk "a" "bob" None ["a"]) "peer-7" Hreg)
    as (room' & Hroom' & _ & _ & Hown & Hothers & _);
    [done | vm_compute; reflexivity | vm_compute; reflexivity |].
  exists room'. split_and!; [exact Hroom' | exact Hown |].
  rewrite Hothers by done. vm_compute; reflexivity.
Defined.

Lemma codeChange_frame_witness :
  let st := run asciiLower initial
              [Connect "a" None None; JoinRoom "a" "bob" "r1";
               Connect "b" None None; JoinRoom "b" "carol" "r2"] in
  lookupRoomId st "a" ≠ Some "r2"
  ∧ rooms (codeChange st "a" "x=1").1 !! "r2" = rooms st !! "r2"
  ∧ socketToRoomMap (codeChange st "a" "x=1").1 = socketToRoomMap st.
Proof.
  intros st.
  assert (Hl : lookupRoomId st "a" ≠ Some "r2") by (vm_compute; discriminate).
  destruct (codeChange_frame st "a" "x=1") as (_ & Hreg & _ & _ & Hother).
  split_and!; [exact Hl | by apply Hother | exact Hreg].
Defined.

Lemma chatMessage_keeps_state_witness :
  let st := run asciiLower initial
              [Connect "a" None None; JoinRoom "a" "bob" "r1";
               Connect "b" None None; JoinRoom "b" "carol" "r1"] in
  let out := (chatMessage st "a" {[ "text" := JStr "hi" ]} "2025-01-01T00:00:00.000Z").2 in
  (chatMessage st "a" {[ "text" := JStr "hi" ]} "2025-01-01T00:00:00.000Z").1 = st
  ∧ (∀ e, e ∈ out → "a" ∉ recipients (socketRooms st) (target e)).
Proof.
  intros st out.
  destruct (chatMessage_keeps_state st "a" {[ "text" := JStr "hi" ]}
              "2025-01-01T00:00:00.000Z") as (Hst & _ & Hout).
  split; [exact Hst|]. intros e He. by destruct (Hout e He).
Defined.

Lemma requestUserList_answer_witness :
  let st := run asciiLower initial
              [Connect "a" None None; JoinRoom "a" "bob" "r1";
               Connect "b" None None; JoinRoom "b" "carol" "r1"] in
  let members := [mkEntry "a" "bob" None; mkEntry "b" "carol" None] in
  rooms st !! "nowhere" = None
  ∧ (requestUserList st "a" "nowhere").2 = [mkEmit (ToSocket "a") (UserList [])]
  ∧ (requestUserList st "a" "r1").2
    = [mkEmit (ToSocket "a") (UserList members); mkEmit (ToRoom "r1") (UserList members)].
Proof.
  intros st members.
  assert (Hnone : rooms st !! "nowhere" = None) by (vm_compute; reflexivity).
  destruct (requestUserList_answer st "a" "nowhere") as (_ & Hempty & _).
  destruct (requestUserList_answer st "a" "r1") as (_ & _ & Hlist).
  destruct (Hlist (Room.mk [("a", User.mk "a" "bob" None ["a"]);
                            ("b", User.mk "b" "carol" None ["b"])] EmptyString))
    as [Hout _]; [done | vm_compute; reflexivity |].
  split_and!; [exact Hnone | apply Hempty; by right | exact Hout].
Defined.

Lemma joinRoom_rejoin_in_place_witness :
  let st := run asciiLower initial
              [Connect "a" None None; JoinRoom "a" "bob" "r1"; PeerId "a" "peer-7";
               Connect "b" None None; JoinRoom "b" "carol" "r1"] in
  JsMap.get "a" <$> (Room.users <$> rooms st !! "r1")
    = Some (Some (User.mk "a" "bob" (Some "peer-7") ["a"]))
  ∧ ∃ room', rooms (joinRoom asciiLower st "a" "robert" "r1").1 !! "r1" = Some room'
             ∧ JsMap.keys (Room.users room') = ["a"; "b"]
             ∧ JsMap.get "a" (Room.users room') = Some (User.mk "a" "robert" None ["a"]).
Proof.
  intros st. split; [vm_compute; reflexivity|].
  destruct (joinRoom_rejoin_in_place asciiLower st "a" "robert" "r1"
              (Room.mk [("a", User.mk "a" "bob" (Some "peer-7") ["a"]);
                        ("b", User.mk "b" "carol" None ["b"])] EmptyString)
              (User.mk "a" "bob" (Some "peer-7") ["a"]))
    as (room' & Hroom' & Hkeys & _ & Hown & _).
  - vm_compute; reflexivity.
  - vm_compute; reflexivity.
  - intros u Hu Hname. cbn in Hu.
    apply elem_of_cons in Hu as [->|Hu]; [done|].
    apply list_elem_of_singleton in Hu as ->. vm_compute in Hname. discriminate.
  - exists room'. split_and!; [exact Hroom' | exact Hkeys | exact Hown].
Defined.

Lemma joinRoom_admitted_subscribes_witness :
  let st := run asciiLower initial
              [Connect "a" None None; JoinRoom "a" "bob" "r1";
               Connect "b" None None; JoinRoom "b" "carol" "r1"] in
  let st' := (joinRoom asciiLower st "b" "carol" "r2").1 in
  socketRooms st !! "b" = Some ["b"; "r1"]
  ∧ socketToRoomMap st' !! "b" = Some "r2"
  ∧ "b" ∈ recipients (socketRooms st') (ToRoom "r2")
  ∧ "b" ∉ subscribers (socketRooms st') "r1".
Proof.
  intros st st'.
  assert (Hrs : socketRooms st !! "b" = Some ["b"; "r1"]) by (vm_compute; reflexivity).
  destruct (joinRoom_admitted_subscribes asciiLower st "b" "carol" "r2" ["b"; "r1"] 1
              (joinedMessage "carol" "r2") Hrs)
    as (Hreg & Hin & Honly & _).
  { vm_compute. do 3 right. left. }
  split_and!; [exact Hrs | exact Hreg | exact Hin |].
  intros Hsub. by destruct (Honly "r1" Hsub).
Defined.

(** The record of "a" in "r1" survives the join of "a" into "r2". *)
Lemma members_only_removed_by_disconnect_witness :
  let st := run asciiLower initial [Connect "a" None None; JoinRoom "a" "bob" "r1"] in
  let room := Room.mk [("a", User.mk "a" "bob" None ["a"])] EmptyString in
  rooms st !! "r1" = Some room
  ∧ ∃ room', rooms (handle asciiLower st (JoinRoom "a" "bob" "r2")).1 !! "r1" = Some room'
             ∧ "a" ∈ JsMap.keys (Room.users room').
Proof.
  intros st room.
  assert (Hroom : rooms st !! "r1" = Some room) by (vm_compute; reflexivity).
  destruct (members_only_removed_by_disconnect asciiLower st (JoinRoom "a" "bob" "r2")
              "r1" room) as (room' & Hroom' & Hsub); [done | exact Hroom |].
  split; [exact Hroom|]. exists room'. split; [exact Hroom'|]. apply Hsub. by left.
Defined.

(** The only member of room '' disconnects; room and record stay. *)
Lemma empty_key_room_is_permanent_witness :
  let st := run asciiLower initial
              [Connect "s1" None None; JoinRoom "s1" "alice" EmptyString] in
  let room := Room.mk [("s1", User.mk "s1" "alice" None ["s1"])] EmptyString in
  rooms st !! EmptyString = Some room
  ∧ ∃ room', rooms (handle asciiLower st (Disconnect "s1")).1 !! EmptyString = Some room'
             ∧ "s1" ∈ JsMap.keys (Room.users room').
Proof.
  intros st room.
  assert (Hroom : rooms st !! EmptyString = Some room) by (vm_compute; reflexivity).
  destruct (empty_key_room_is_permanent asciiLower st (Disconnect "s1") room Hroom)
    as (room' & Hroom' & Hsub).
  split; [exact Hroom|]. exists room'. split; [exact Hroom'|]. apply Hsub. by left.
Defined.

Lemma disconnect_frame_witness :
  let st := run asciiLower initial
              [Connect "a" None None; JoinRoom "a" "bob" "r1";
               Connect "b" None None; JoinRoom "b" "carol" "r2"] in
  socketToRoomMap st !! "a" ≠ Some "r2"
  ∧ rooms (disconnect st "a").1 !! "r2" = rooms st !! "r2"
  ∧ socketToRoomMap (disconnect st "a").1 !! "a" = None
  ∧ socketToRoomMap (disconnect st "a").1 !! "b" = socketToRoomMap st !! "b".
Proof.
  intros st.
  assert (Hreg : socketToRoomMap st !! "a" ≠ Some "r2") by (vm_compute; discriminate).
  destruct (disconnect_frame st "a") as (_ & Hgone & _ & Hothers & Hrooms).
  destruct (Hothers "b") as (_ & Hb & _); [done|].
  split_and!; [exact Hreg | by apply Hrooms | exact Hgone | exact Hb].
Defined.

Lemma disconnect_member_leaves_witness :
  let st := run asciiLower initial
              [Connect "a" None None; JoinRoom "a" "bob" "r1";
               Connect "b" None None; JoinRoom "b" "carol" "r1"] in
  reachable asciiLower st
  ∧ socketToRoomMap st !! "a" = Some "r1"
  ∧ (disconnect st "a").2
    = [mkEmit (ToRoom "r1") (UserLeft "bob");
       mkEmit (ToRoom "r1") (UserList [mkEntry "b" "carol" None])]
  ∧ rooms (disconnect st "a").1 !! "r1"
    = Some (Room.mk [("b", User.mk "b" "carol" None ["b"])] EmptyString).
Proof.
  intros st.
  assert (Hreach : reachable asciiLower st)
    by (apply reachable_run; [constructor | vm_compute; reflexivity]).
  assert (Hreg : socketToRoomMap st !! "a" = Some "r1") by (vm_compute; reflexivity).
  destruct (disconnect_member_leaves asciiLower st "a" "r1"
              (Room.mk [("a", User.mk "a" "bob" None ["a"]);
                        ("b", User.mk "b" "carol" None ["b"])] EmptyString)
              (User.mk "a" "bob" None ["a"]) Hreach Hreg)
    as (Hout & Hroom' & _);
    [done | vm_compute; reflexivity | vm_compute; reflexivity |].
  split_and!; [exact Hreach | exact Hreg | exact Hout | exact Hroom'].
Defined.

(** "b" connected with the room in its query and never joined. *)
Lemma disconnect_non_member_silent_witness :
  let st := run asciiLower initial
              [Connect "a" None None; JoinRoom "a" "bob" "r1";
               Connect "b" (Some "tab-1") (Some "r1")] in
  reachable asciiLower st
  ∧ socketToRoomMap st !! "b" = Some "r1"
  ∧ (disconnect st "b").2 = []
  ∧ rooms (disconnect st "b").1 = rooms st.
Proof.
  intros st.
  assert (Hreach : reachable asciiLower st)
    by (apply reachable_run; [constructor | vm_compute; reflexivity]).
  assert (Hreg : socketToRoomMap st !! "b" = Some "r1") by (vm_compute; reflexivity).
  destruct (disconnect_non_member_silent asciiLower st "b" Hreach) as [Hout Hrooms].
  { intros roomId room Hr Hroom. rewrite Hreg in Hr. injection Hr as <-.
    assert (Hroom1 : rooms st !! "r1"
                     = Some (Room.mk [("a", User.mk "a" "bob" None ["a"])] EmptyString))
      by (vm_compute; reflexivity).
    rewrite Hroom1 in Hroom. injection Hroom as <-. reflexivity. }
  split_and!; [exact Hreach | exact Hreg | exact Hout | exact Hrooms].
Defined.

Lemma requestUserListHelper_agrees_witness :
  let st := run asciiLower initial
              [Connect "a" None None; JoinRoom "a" "bob" "r1";
               Connect "b" None None; JoinRoom "b" "carol" "r1"] in
  let members := [mkEntry "a" "bob" None; mkEntry "b" "carol" None] in
  reachable asciiLower st
  ∧ (requestUserListHelper st "a" "r1").2 = [mkEmit (ToRoom "r1") (UserList members)]
  ∧ (requestUserList st "a" "r1").2
    = [mkEmit (ToSocket "a") (UserList members); mkEmit (ToRoom "r1") (UserList members)].
Proof.
  intros st members.
  assert (Hreach : reachable asciiLower st)
    by (apply reachable_run; [constructor | vm_compute; reflexivity]).
  destruct (requestUserListHelper_agrees asciiLower st "a" "r1" Hreach) as (_ & Hlist & _).
  destruct (Hlist (Room.mk [("a", User.mk "a" "bob" None ["a"]);
                            ("b", User.mk "b" "carol" None ["b"])] EmptyString))
    as [Hhelper Hboth]; [done | vm_compute; reflexivity |].
  split_and!; [exact Hreach | exact Hhelper |]. rewrite Hboth, Hhelper. reflexivity.
Defined.

Lemma reachable_subscribers_are_members_witness :
  let st := run asciiLower initial
              [Connect "a" None None; JoinRoom "a" "bob" "r1";
               Connect "b" None None; JoinRoom "b" "carol" "r1"] in
  reachable asciiLower st
  ∧ "b" ∈ subscribers (socketRooms st) "r1"
  ∧ socketToRoomMap st !! "b" = Some "r1".
Proof.
  intros st.
  assert (Hreach : reachable asciiLower st)
    by (apply reachable_run; [constructor | vm_compute; reflexivity]).
  assert (Hsub : "b" ∈ subscribers (socketRooms st) "r1").
  { apply elem_of_subscribers. exists ["b"; "r1"].
    split; [vm_compute; reflexivity | by right; left]. }
  destruct (reachable_subscribers_are_members asciiLower st "b" "r1" Hreach Hsub)
    as [Heq|[Hreg _]]; [discriminate Heq|].
  split_and!; [exact Hreach | exact Hsub | exact Hreg].
Defined.

(** "c" has connected without query and not joined. *)
Lemma reachable_fallback_unused_witness :
  let st := run asciiLower initial
              [Connect "a" None None; JoinRoom "a" "bob" "r1"; Connect "c" None None] in
  reachable asciiLower st
  ∧ socketToRoomMap st !! "c" = None
  ∧ codeChange st "c" "x=1" = (st, [])
  ∧ peerIdHandler st "c" "peer-9" = (st, []).
Proof.
  intros st.
  assert (Hreach : reachable asciiLower st)
    by (apply reachable_run; [constructor | vm_compute; reflexivity]).
  assert (Hnone : socketToRoomMap st !! "c" = None) by (vm_compute; reflexivity).
  destruct (reachable_fallback_unused asciiLower st "c" Hreach) as [_ Hnoop].
  destruct (Hnoop Hnone "peer-9" "x=1" ∅ EmptyString) as (Hpeer & Hcode & _).
  split_and!; [exact Hreach | exact Hnone | exact Hcode | exact Hpeer].
Defined.

Lemma reachable_registries_hold_live_sockets_witness :
  let st := run asciiLower initial
              [Connect "a" (Some "tab-1") (Some "r1"); JoinRoom "a" "bob" "r1"] in
  reachable asciiLower st
  ∧ is_Some (socketToRoomMap st !! "a")
  ∧ is_Some (socketRooms st !! "a").
Proof.
  intros st.
  assert (Hreach : reachable asciiLower st)
    by (apply reachable_run; [constructor | vm_compute; reflexivity]).
  assert (Hreg : is_Some (socketToRoomMap st !! "a")) by (exists "r1"; vm_compute; reflexivity).
  destruct (reachable_registries_hold_live_sockets asciiLower st "a" Hreach) as [Hlive _].
  split_and!; [exact Hreach | exact Hreg | exact (Hlive Hreg)].
Defined.

Lemma connect_registers_without_joining_witness :
  let st := run asciiLower initial [Connect "a" None None; JoinRoom "a" "bob" "r1"] in
  let st' := (connect st "b" (Some "tab-1") (Some "r1")).1 in
  socketRooms st !! "b" = None
  ∧ socketToRoomMap st' !! "b" = Some "r1"
  ∧ rooms st' = rooms st
  ∧ ("b" ∉ subscribers (socketRooms st') "r1")
  ∧ socketToRoomMap (connect st "b" None (Some "r1")).1 = socketToRoomMap st.
Proof.
  intros st st'.
  assert (Hfresh : socketRooms st !! "b" = None) by (vm_compute; reflexivity).
  destruct (connect_registers_without_joining st "b" (Some "tab-1") (Some "r1") Hfresh)
    as (Hrooms & Hsub & Hreg & _).
  destruct (Hreg "tab-1" "r1" eq_refl eq_refl) as [_ Hroom]; [done | done |].
  destruct (connect_registers_without_joining st "b" None (Some "r1") Hfresh)
    as (_ & _ & _ & Hignored).
  destruct (Hignored eq_refl) as [_ Hsame].
  split_and!; [exact Hfresh | exact Hroom | exact Hrooms | | exact Hsame].
  intros Hin. apply Hsub in Hin. discriminate Hin.
Defined.
